(** * Collage URL builder: a shallow embedding of [buildCollageUrl]

    The TypeScript function [buildCollageUrl] (lib/collage.ts) turns a
    Cloudinary cloud name, five uploaded photos and a family name into one
    transformation URL.  This file embeds the function and the parts of the
    JavaScript runtime it calls (strings of UTF-16 code units, template
    literals over integers, [String.prototype.replace] with a global
    pattern, [Array.prototype.join], [encodeURIComponent]) and proves the
    properties of the layout and of the assembled URL.  It also embeds the
    state updates of the component that calls the builder
    (components/FamilyCollageApp.tsx) and the script poll of the upload
    widget (components/UploadWidget.tsx). *)

From Stdlib Require Import ZArith NArith List String Ascii Bool Lia.
From Stdlib Require Import DecimalString DecimalPos DecimalZ.
From Stdlib Require Import Permutation.
Import ListNotations.

Local Open Scope list_scope.

(** ** JavaScript strings

    A JavaScript string is a finite sequence of 16-bit code units.  Code
    units are kept as [N]; every literal of the program is ASCII and is
    written [js "..."]. *)

Module JS.

Definition codeunit := N.
Definition jsstring := list codeunit.

Definition js (s : string) : jsstring :=
  map N_of_ascii (list_ascii_of_string s).

(** Template-literal interpolation of an integer-valued number.  Every
    number the builder prints is an integer far below 2^53, where
    [Number::toString] is the plain decimal form with a leading [-] for
    negatives. *)
Definition numberToString (z : Z) : jsstring :=
  js (NilZero.string_of_int (Z.to_int z)).

(** [!s] for a string: only the empty string is falsy. *)
Definition falsy (s : jsstring) : bool :=
  match s with [] => true | _ :: _ => false end.

(** [s.replace(/\//g, ':')]: every solidus becomes a colon. *)
Definition solidus : codeunit := 47%N.
Definition colon : codeunit := 58%N.
Definition comma : codeunit := 44%N.

Definition replaceSlashes (s : jsstring) : jsstring :=
  map (fun c => if N.eqb c solidus then colon else c) s.

(** [arr.join(sep)] *)
Fixpoint join (sep : jsstring) (arr : list jsstring) : jsstring :=
  match arr with
  | [] => []
  | [a] => a
  | a :: rest => a ++ sep ++ join sep rest
  end.

(** [s.startsWith(p)] and [s.includes(p)] *)
Fixpoint startsWith (s p : jsstring) : bool :=
  match p, s with
  | [], _ => true
  | _ :: _, [] => false
  | a :: p', b :: s' => N.eqb a b && startsWith s' p'
  end.

Fixpoint includes (s p : jsstring) : bool :=
  startsWith s p ||
  match s with
  | [] => false
  | _ :: s' => includes s' p
  end.

(** [s.split(sep)] for a separator of one code unit. *)
Fixpoint split (sep : codeunit) (s : jsstring) : list jsstring :=
  match s with
  | [] => [[]]
  | c :: r =>
      if N.eqb c sep then [] :: split sep r
      else match split sep r with
           | [] => [[c]]
           | h :: t => (c :: h) :: t
           end
  end.

(** ** Abrupt completions *)

Inductive exception : Type :=
| URIError
| TypeError.

Inductive completion (A : Type) : Type :=
| Normal (a : A)
| Throw (e : exception).
Arguments Normal {A} a.
Arguments Throw {A} e.

Definition bind {A B} (c : completion A) (k : A -> completion B) : completion B :=
  match c with
  | Normal a => k a
  | Throw e => Throw e
  end.

Notation "x <- c ;; k" := (bind c (fun x => k))
  (at level 61, c at next level, right associativity).

(** ** [encodeURIComponent]

    ECMAScript's [Encode(string, extraUnescaped)] with an empty
    [extraUnescaped]: the unescaped set is the ASCII word characters and
    [-.!~*'()]; any other code point is written as the [%XX] form of its
    UTF-8 octets; an unpaired surrogate throws [URIError]. *)

Definition inRange (lo hi c : N) : bool := (N.leb lo c && N.leb c hi)%bool.

Definition isLeadingSurrogate (c : codeunit) : bool := inRange 0xD800 0xDBFF c.
Definition isTrailingSurrogate (c : codeunit) : bool := inRange 0xDC00 0xDFFF c.

Definition uriUnescaped (c : codeunit) : bool :=
  inRange 65 90 c || inRange 97 122 c || inRange 48 57 c ||
  existsb (N.eqb c) (js "_-.!~*'()").

Definition utf16SurrogatePairToCodePoint (lead trail : codeunit) : N :=
  ((lead - 0xD800) * 0x400 + (trail - 0xDC00) + 0x10000)%N.

Definition utf8Octets (cp : N) : list N :=
  if N.ltb cp 0x80 then [cp]
  else if N.ltb cp 0x800 then
    [N.lor 0xC0 (N.shiftr cp 6); N.lor 0x80 (N.land cp 0x3F)]
  else if N.ltb cp 0x10000 then
    [N.lor 0xE0 (N.shiftr cp 12);
     N.lor 0x80 (N.land (N.shiftr cp 6) 0x3F);
     N.lor 0x80 (N.land cp 0x3F)]
  else
    [N.lor 0xF0 (N.shiftr cp 18);
     N.lor 0x80 (N.land (N.shiftr cp 12) 0x3F);
     N.lor 0x80 (N.land (N.shiftr cp 6) 0x3F);
     N.lor 0x80 (N.land cp 0x3F)].

Definition hexDigit (d : N) : codeunit :=
  if N.ltb d 10 then (48 + d)%N else (65 + (d - 10))%N.

Definition percentOctet (o : N) : jsstring :=
  [37%N; hexDigit (N.shiftr o 4); hexDigit (N.land o 0xF)].

Definition percentEncode (cp : N) : jsstring :=
  flat_map percentOctet (utf8Octets cp).

Fixpoint encodeURIComponent (s : jsstring) : completion jsstring :=
  match s with
  | [] => Normal []
  | c :: rest =>
      if uriUnescaped c then
        r <- encodeURIComponent rest ;; Normal (c :: r)
      else if isTrailingSurrogate c then Throw URIError
      else if isLeadingSurrogate c then
        match rest with
        | [] => Throw URIError
        | d :: rest' =>
            if isTrailingSurrogate d then
              r <- encodeURIComponent rest' ;;
              Normal (percentEncode (utf16SurrogatePairToCodePoint c d) ++ r)
            else Throw URIError
        end
      else
        r <- encodeURIComponent rest ;; Normal (percentEncode c ++ r)
  end.

(** [s.isWellFormed()]: no unpaired surrogate. *)
Fixpoint isWellFormed (s : jsstring) : bool :=
  match s with
  | [] => true
  | c :: rest =>
      if isTrailingSurrogate c then false
      else if isLeadingSurrogate c then
        match rest with
        | [] => false
        | d :: rest' => isTrailingSurrogate d && isWellFormed rest'
        end
      else isWellFormed rest
  end.

End JS.

Import JS.

(** ** Data model *)

Record Photo : Type := { publicId : jsstring }.

Record Position : Type := {
  gravity : jsstring;
  x : Z;
  y : Z;
  width : Z;
  height : Z
}.

Local Open Scope Z_scope.

(** [Math.floor(a / b)] on integer-valued numbers of this size is the
    floor of the exact quotient; [Math.round] of an integer is itself. *)
Definition mathFloorDiv (a b : Z) : Z := a / b.
Definition mathRound (a : Z) : Z := a.

(** ** Layout arithmetic (lines 37-125 of the builder)

    The arithmetic is written once over the five layout constants, so
    that the laws it obeys can be proved for any canvas, and instantiated
    below at the constants of the source. *)

Module Layout.
Section Geometry.

Variables canvasWidth canvasHeight textSpace margin gap : Z.

Definition usableHeight := canvasHeight - textSpace.

Definition availableWidth := canvasWidth - (2 * margin) - (2 * gap).
Definition columnWidth := mathFloorDiv availableWidth 3.

Definition availableHeight := usableHeight - (2 * margin) - gap.
Definition row1Height := mathFloorDiv (availableHeight * 2) 3.
Definition row2Height := availableHeight - row1Height.

Definition col1Height := row1Height + gap + row2Height.
Definition col2TopHeight := row1Height.
Definition col2BottomHeight := row2Height.
Definition col3TopHeight := row2Height.
Definition col3BottomHeight := row1Height.

Definition photoPositions : list Position :=
  [ {| gravity := js "g_north_west";
       x := margin;
       y := margin;
       width := columnWidth;
       height := col1Height |};
    {| gravity := js "g_north_west";
       x := margin + columnWidth + gap;
       y := margin;
       width := columnWidth;
       height := col2TopHeight |};
    {| gravity := js "g_north_west";
       x := margin + columnWidth + gap;
       y := margin + row1Height + gap;
       width := columnWidth;
       height := col2BottomHeight |};
    {| gravity := js "g_north_west";
       x := margin + (columnWidth + gap) * 2;
       y := margin;
       width := columnWidth;
       height := col3TopHeight |};
    {| gravity := js "g_north_west";
       x := margin + (columnWidth + gap) * 2;
       y := margin + row2Height + gap;
       width := columnWidth;
       height := col3BottomHeight |} ].

End Geometry.
End Layout.

(** The constants of the source. *)
Definition canvasWidth : Z := 1600.
Definition canvasHeight : Z := 900.
Definition textSpace : Z := 120.
Definition margin : Z := 50.
Definition gap : Z := 40.

Definition usableHeight : Z := Layout.usableHeight canvasHeight textSpace.
Definition availableWidth : Z := Layout.availableWidth canvasWidth margin gap.
Definition columnWidth : Z := Layout.columnWidth canvasWidth margin gap.
Definition availableHeight : Z :=
  Layout.availableHeight canvasHeight textSpace margin gap.
Definition row1Height : Z := Layout.row1Height canvasHeight textSpace margin gap.
Definition row2Height : Z := Layout.row2Height canvasHeight textSpace margin gap.
Definition col1Height : Z := Layout.col1Height canvasHeight textSpace margin gap.

Definition photoPositions : list Position :=
  Layout.photoPositions canvasWidth canvasHeight textSpace margin gap.

(** ** Photo overlays (lines 127-153) *)

Definition cornerRadius : Z := 25.
Definition borderWidth : Z := 8.
Definition goldColor : jsstring := js "rgb:FFD700".

(** The positioning parameters of one overlay: the gravity, the x offset
    when it is positive, the y offset. *)
Definition positionParams (position : Position) : list jsstring :=
  let params := [gravity position] in
  let params :=
    if 0 <? x position
    then params ++ [js "x_" ++ numberToString (x position)]
    else params in
  params ++ [js "y_" ++ numberToString (y position)].

(** The body of the [forEach] callback for one photo and its position. *)
Definition overlay (position : Position) (photo : Photo) : jsstring :=
  let overlayId := replaceSlashes (publicId photo) in
  js "l_" ++ overlayId
  ++ js "/c_fill,w_" ++ numberToString (width position)
  ++ js ",h_" ++ numberToString (height position)
  ++ js "/r_" ++ numberToString cornerRadius
  ++ js ",bo_" ++ numberToString borderWidth ++ js "px_solid_" ++ goldColor
  ++ js "/fl_layer_apply," ++ join (js ",") (positionParams position).

(** [photosToUse.forEach((photo, index) => ...)]: [photoPositions[index]]
    is [undefined] past the end of the table, and reading a property of it
    throws [TypeError]; each overlay is pushed at the end of the array. *)
Fixpoint forEachPhoto (positions : list Position) (photosToUse : list Photo)
    (index : nat) (photoOverlays : list jsstring) : completion (list jsstring) :=
  match photosToUse with
  | [] => Normal photoOverlays
  | photo :: rest =>
      match nth_error positions index with
      | None => Throw TypeError
      | Some position =>
          forEachPhoto positions rest (S index)
            (photoOverlays ++ [overlay position photo])
      end
  end.

Definition photoOverlays (photosToUse : list Photo) : completion (list jsstring) :=
  forEachPhoto photoPositions photosToUse 0%nat [].

(** ** Ribbon and caption (lines 155-196) *)

Definition ribbonHeight : Z := 100.
Definition ribbonBottomMargin : Z := 20.
Definition ribbonOpacity : Z := 70.
Definition ribbonYFromBottom : Z := ribbonBottomMargin.
Definition whitePixelPublicId : jsstring := js "holiday-assets/white-pixel".
Definition whitePixelOverlayId : jsstring := replaceSlashes whitePixelPublicId.

Definition whiteRibbon : jsstring :=
  js "l_" ++ whitePixelOverlayId
  ++ js "/c_fill,w_" ++ numberToString canvasWidth
  ++ js ",h_" ++ numberToString ribbonHeight
  ++ js "/o_" ++ numberToString ribbonOpacity
  ++ js "/fl_layer_apply,g_south,y_" ++ numberToString ribbonYFromBottom.

(** The separator between the family name and the word Holiday, as the
    template literal of line 185 holds it: the three characters U+00E2,
    U+20AC, U+201C (the file stores the bytes C3 A2, E2 82 AC, E2 80 9C
    there). *)
Definition captionSeparator : jsstring := [0xE2%N; 0x20AC%N; 0x201C%N].

Definition textContent (familyName : jsstring) (currentYear : Z) : jsstring :=
  familyName ++ js " " ++ captionSeparator ++ js " Holiday "
  ++ numberToString currentYear.

Definition textYFromBottom : Z := ribbonBottomMargin.

Definition textOverlay (familyName : jsstring) (currentYear : Z)
  : completion jsstring :=
  encodedText <- encodeURIComponent (textContent familyName currentYear) ;;
  Normal (js "l_text:Pacifico_70:" ++ encodedText
          ++ js ",co_rgb:000000/fl_layer_apply,g_south,y_"
          ++ numberToString (mathRound textYFromBottom)).

(** ** The builder (lines 12-221)

    What the function reads from outside its arguments: the year of the
    system clock ([new Date().getFullYear()]) and whether a global
    [window] exists; what it writes: lines on the console. *)

Record World : Type := {
  clockYear : Z;
  windowDefined : bool
}.

Inductive consoleArg : Type :=
| ArgString (s : jsstring)
| ArgArray (a : list jsstring).

Definition consoleLine := list consoleArg.

Definition baseUrl (cloudName : jsstring) : jsstring :=
  js "https://res.cloudinary.com/" ++ cloudName ++ js "/image/upload".

Definition baseTransform : jsstring := js "w_1600,h_900,c_fill,q_auto,f_auto".
Definition backgroundId : jsstring := js "holiday-assets/collage-bg".

Definition segments (overlays : list jsstring) (text : jsstring) : list jsstring :=
  [baseTransform] ++ overlays ++ [whiteRibbon; text; backgroundId].

Definition buildCollageUrl (w : World) (cloudName : jsstring)
    (photos : list Photo) (familyName : jsstring)
  : completion jsstring * list consoleLine :=
  if falsy cloudName then (Normal [], [])
  else if negb (Nat.eqb (List.length photos) 5) then (Normal [], [])
  else
    let photosToUse := photos in
    match photoOverlays photosToUse with
    | Throw e => (Throw e, [])
    | Normal overlays =>
        let currentYear := clockYear w in
        match textOverlay familyName currentYear with
        | Throw e => (Throw e, [])
        | Normal text =>
            let segs := segments overlays text in
            let fullUrl := baseUrl cloudName ++ js "/" ++ join (js "/") segs in
            (Normal fullUrl,
             if windowDefined w
             then [[ArgString (js "Generated Cloudinary URL:"); ArgString fullUrl];
                   [ArgString (js "Segments:"); ArgArray segs]]
             else [])
        end
    end.

(** The value the call completes with. *)
Definition returned (w : World) (cloudName : jsstring) (photos : list Photo)
    (familyName : jsstring) : completion jsstring :=
  fst (buildCollageUrl w cloudName photos familyName).

Definition samplePhotos : list Photo :=
  map (fun s => {| publicId := js s |}) ["a/b"; "c"; "d/e/f"; "g"; "h"]%string.

Definition sampleWorld : World := {| clockYear := 2025; windowDefined := true |}.

(** The builder's own photo type, under a name that stays visible
    beside the application's. *)
Abbreviation builderPhoto := Photo (only parsing).
Abbreviation Build_builderPhoto := Build_Photo (only parsing).

(** ** The collage application (components/FamilyCollageApp.tsx)

    The component keeps the uploaded photos, the five-position layout and
    the drag state in React state; every handler below is the state update
    the source performs, written as a function of the state it is applied
    to.  The upload transport is a parameter. *)

Module App.

Record Photo : Type := {
  publicId : jsstring;
  url : jsstring
}.

Inductive Position : Type :=
| Position1 | Position2 | Position3 | Position4 | Position5.

Record CollageLayout : Type := {
  position1 : option Photo;
  position2 : option Photo;
  position3 : option Photo;
  position4 : option Photo;
  position5 : option Photo
}.

Definition positionEqb (a b : Position) : bool :=
  match a, b with
  | Position1, Position1 | Position2, Position2 | Position3, Position3
  | Position4, Position4 | Position5, Position5 => true
  | _, _ => false
  end.

(** [layout[position]] and [layout[position] = value] on a copy. *)
Definition get (layout : CollageLayout) (position : Position) : option Photo :=
  match position with
  | Position1 => position1 layout
  | Position2 => position2 layout
  | Position3 => position3 layout
  | Position4 => position4 layout
  | Position5 => position5 layout
  end.

Definition set (layout : CollageLayout) (position : Position)
    (value : option Photo) : CollageLayout :=
  match position with
  | Position1 => {| position1 := value; position2 := position2 layout;
                    position3 := position3 layout; position4 := position4 layout;
                    position5 := position5 layout |}
  | Position2 => {| position1 := position1 layout; position2 := value;
                    position3 := position3 layout; position4 := position4 layout;
                    position5 := position5 layout |}
  | Position3 => {| position1 := position1 layout; position2 := position2 layout;
                    position3 := value; position4 := position4 layout;
                    position5 := position5 layout |}
  | Position4 => {| position1 := position1 layout; position2 := position2 layout;
                    position3 := position3 layout; position4 := value;
                    position5 := position5 layout |}
  | Position5 => {| position1 := position1 layout; position2 := position2 layout;
                    position3 := position3 layout; position4 := position4 layout;
                    position5 := value |}
  end.

Definition emptyLayout : CollageLayout :=
  {| position1 := None; position2 := None; position3 := None;
     position4 := None; position5 := None |}.

Record State : Type := {
  photos : list Photo;
  collageLayout : CollageLayout;
  draggedPhoto : option Photo;
  draggedFromPosition : option Position;
  hoveredPosition : option Position;
  isUploading : bool
}.

Definition initialState : State :=
  {| photos := []; collageLayout := emptyLayout; draggedPhoto := None;
     draggedFromPosition := None; hoveredPosition := None;
     isUploading := false |}.

Record UploadInfo : Type := {
  public_id : jsstring;
  secure_url : jsstring
}.

Record File : Type := { type : jsstring }.

(** [a === b] on strings. *)
Fixpoint stringEquals (a b : jsstring) : bool :=
  match a, b with
  | [], [] => true
  | c :: a', d :: b' => N.eqb c d && stringEquals a' b'
  | _, _ => false
  end.

(** [handleUpload] (lines 44-61): the two functional updates. *)
Definition addPhoto (newPhoto : Photo) (prev : list Photo) : list Photo :=
  if Nat.leb 5 (List.length prev) then prev else prev ++ [newPhoto].

Definition autoAssign (newPhoto : Photo) (prev : CollageLayout) : CollageLayout :=
  match position1 prev with
  | None => set prev Position1 (Some newPhoto)
  | Some _ =>
  match position2 prev with
  | None => set prev Position2 (Some newPhoto)
  | Some _ =>
  match position3 prev with
  | None => set prev Position3 (Some newPhoto)
  | Some _ =>
  match position4 prev with
  | None => set prev Position4 (Some newPhoto)
  | Some _ =>
  match position5 prev with
  | None => set prev Position5 (Some newPhoto)
  | Some _ => prev
  end end end end end.

Definition handleUpload (info : UploadInfo) (s : State) : State :=
  let newPhoto := {| publicId := public_id info; url := secure_url info |} in
  {| photos := addPhoto newPhoto (photos s);
     collageLayout := autoAssign newPhoto (collageLayout s);
     draggedPhoto := draggedPhoto s;
     draggedFromPosition := draggedFromPosition s;
     hoveredPosition := hoveredPosition s;
     isUploading := isUploading s |}.

(** [handlePhotoDragStart] and [handlePhotoDragEnd] (lines 64-73). *)
Definition handlePhotoDragStart (photo : Photo) (fromPosition : option Position)
    (s : State) : State :=
  {| photos := photos s;
     collageLayout := collageLayout s;
     draggedPhoto := Some photo;
     draggedFromPosition := fromPosition;
     hoveredPosition := hoveredPosition s;
     isUploading := isUploading s |}.

Definition handlePhotoDragEnd (s : State) : State :=
  {| photos := photos s;
     collageLayout := collageLayout s;
     draggedPhoto := None;
     draggedFromPosition := None;
     hoveredPosition := None;
     isUploading := isUploading s |}.

(** [handlePositionDrop] (lines 75-99): the layout update, then the
    handler. *)
Definition dropLayout (dragged : Photo) (from : option Position)
    (position : Position) (prev : CollageLayout) : CollageLayout :=
  let newLayout := prev in
  let newLayout :=
    match from with
    | Some origin =>
        if negb (positionEqb origin position)
        then set newLayout origin None
        else newLayout
    | None => newLayout
    end in
  let newLayout :=
    match from, get prev position with
    | Some origin, Some occupant => set newLayout origin (Some occupant)
    | _, _ => newLayout
    end in
  set newLayout position (Some dragged).

Definition handlePositionDrop (position : Position) (s : State) : State :=
  match draggedPhoto s with
  | Some dragged =>
      {| photos := photos s;
         collageLayout :=
           dropLayout dragged (draggedFromPosition s) position (collageLayout s);
         draggedPhoto := None;
         draggedFromPosition := None;
         hoveredPosition := None;
         isUploading := isUploading s |}
  | None => s
  end.

(** [removeFromPosition] (lines 114-119). *)
Definition removeFromPosition (position : Position) (s : State) : State :=
  {| photos := photos s;
     collageLayout := set (collageLayout s) position None;
     draggedPhoto := draggedPhoto s;
     draggedFromPosition := draggedFromPosition s;
     hoveredPosition := hoveredPosition s;
     isUploading := isUploading s |}.

(** [removePhoto] (lines 121-146): [prev.positionK?.publicId === id]. *)
Definition holds (id : jsstring) (cell : option Photo) : bool :=
  match cell with
  | Some photo => stringEquals (publicId photo) id
  | None => false
  end.

Definition clearPhoto (photoToRemove : Photo) (prev : CollageLayout)
  : CollageLayout :=
  let id := publicId photoToRemove in
  let newLayout := prev in
  let newLayout :=
    if holds id (position1 prev) then set newLayout Position1 None else newLayout in
  let newLayout :=
    if holds id (position2 prev) then set newLayout Position2 None else newLayout in
  let newLayout :=
    if holds id (position3 prev) then set newLayout Position3 None else newLayout in
  let newLayout :=
    if holds id (position4 prev) then set newLayout Position4 None else newLayout in
  let newLayout :=
    if holds id (position5 prev) then set newLayout Position5 None else newLayout in
  newLayout.

Definition removePhoto (photoToRemove : Photo) (s : State) : State :=
  {| photos :=
       filter (fun photo =>
                 negb (stringEquals (publicId photo) (publicId photoToRemove)))
         (photos s);
     collageLayout := clearPhoto photoToRemove (collageLayout s);
     draggedPhoto := draggedPhoto s;
     draggedFromPosition := draggedFromPosition s;
     hoveredPosition := hoveredPosition s;
     isUploading := isUploading s |}.

(** [getPhotosInLayout] (lines 148-156). *)
Definition pushIf (cell : option Photo) (photosInLayout : list Photo) : list Photo :=
  match cell with
  | Some photo => photosInLayout ++ [photo]
  | None => photosInLayout
  end.

Definition getPhotosInLayout (collageLayout : CollageLayout) : list Photo :=
  let photosInLayout := [] in
  let photosInLayout := pushIf (position1 collageLayout) photosInLayout in
  let photosInLayout := pushIf (position2 collageLayout) photosInLayout in
  let photosInLayout := pushIf (position3 collageLayout) photosInLayout in
  let photosInLayout := pushIf (position4 collageLayout) photosInLayout in
  let photosInLayout := pushIf (position5 collageLayout) photosInLayout in
  photosInLayout.

(** A photo of the application seen by the builder, which reads only
    its [publicId]. *)
Definition asBuilderPhoto (photo : Photo) : builderPhoto :=
  Build_builderPhoto (publicId photo).

(** [collageUrl] (lines 347-350). *)
Definition collageUrl (w : World) (cloudName : jsstring) (s : State)
    (familyName : jsstring) : completion jsstring :=
  let photosForCollage := getPhotosInLayout (collageLayout s) in
  if negb (falsy cloudName) && Nat.eqb (List.length photosForCollage) 5
  then returned w cloudName (map asBuilderPhoto photosForCollage) familyName
  else Normal [].

(** [handleFiles] (lines 245-290) is asynchronous: it runs up to the
    [await] of line 279, other handlers may run while the uploads are in
    flight, and it runs on from the [await] when they have settled.  The
    two halves are two functions.  [handleFilesBegin] is the part before
    the [await], on the state of the render the handler was made in: the
    state it leaves, the alerts it raises, and the files it sends when it
    does not return early.  [handleFilesSettle] is the part after the
    [await], on the state the component is in by then: its argument is
    what [Promise.all] settled with, the upload results in order or
    [None] when one upload was rejected. *)
Definition plural (n : Z) : jsstring :=
  if Z.eqb n 1 then [] else js "s".

Definition truncationAlert (maxAllowed : Z) : jsstring :=
  js "Only " ++ numberToString maxAllowed ++ js " more photo"
  ++ plural maxAllowed ++ js " can be uploaded. The first "
  ++ numberToString maxAllowed ++ js " will be uploaded.".


Definition setIsUploading (flag : bool) (s : State) : State :=
  {| photos := photos s;
     collageLayout := collageLayout s;
     draggedPhoto := draggedPhoto s;
     draggedFromPosition := draggedFromPosition s;
     hoveredPosition := hoveredPosition s;
     isUploading := flag |}.

Definition imageFiles (files : list File) : list File :=
  filter (fun file => startsWith (type file) (js "image/")) files.


Record Began : Type := {
  stateNow : State;
  alerts : list jsstring;
  sent : option (list File)
}.

Definition handleFilesBegin (cloudName uploadPreset : jsstring)
    (files : list File) (s : State) : Began :=
  if falsy cloudName || falsy uploadPreset then
    {| stateNow := s;
       alerts := [js "Cloudinary configuration missing. Please check your environment variables."];
       sent := None |}
  else
    let images := imageFiles files in
    if Nat.eqb (List.length images) 0 then
      {| stateNow := s;
         alerts := [js "Please drop only image files."];
         sent := None |}
    else
      let currentCount := Z.of_nat (List.length (photos s)) in
      let maxAllowed := 5 - currentCount in
      if maxAllowed <=? 0 then
        {| stateNow := s;
           alerts := [js "You have already uploaded 5 photos. Remove some photos before uploading more."];
           sent := None |}
      else
        let chosen := firstn (Z.to_nat maxAllowed) images in
        {| stateNow := setIsUploading true s;
           alerts :=
             if Nat.ltb (List.length chosen) (List.length images)
             then [truncationAlert maxAllowed] else [];
           sent := Some chosen |}.

Definition handleFilesSettle (settledWith : option (list UploadInfo))
    (s : State) : State * list jsstring :=
  match settledWith with
  | Some results =>
      (setIsUploading false
         (fold_left (fun state result => handleUpload result state) results s),
       [])
  | None =>
      (setIsUploading false s,
       [js "Failed to upload some images. Please try again."])
  end.

End App.

(** ** The upload widget's script poll (components/UploadWidget.tsx)

    [waitForCloudinary(maxAttempts, interval)] looks for the widget
    script, and looks again after [interval] milliseconds while fewer than
    [maxAttempts] retries were made.  [ready k] tells whether the script
    is there at the look that follows [k] retries.  [fuel] bounds the
    number of looks. *)

Inductive settled : Type :=
| Resolved (attempts : nat)
| Rejected (attempts : nat).

Fixpoint checkCloudinary (ready : nat -> bool) (maxAttempts : nat)
    (fuel attempts : nat) : option settled :=
  match fuel with
  | O => None
  | S fuel' =>
      if ready attempts then Some (Resolved attempts)
      else if Nat.ltb attempts maxAttempts
           then checkCloudinary ready maxAttempts fuel' (S attempts)
           else Some (Rejected attempts)
  end.

Definition waitForCloudinary (ready : nat -> bool) (maxAttempts : nat)
    (fuel : nat) : option settled :=
  checkCloudinary ready maxAttempts fuel 0.

(** * Vocabulary of the statements *)

(** ** Strings *)

(** The code units of a decimal numeral: the digits and the minus sign. *)
Definition isDecimalUnit (c : codeunit) : bool :=
  inRange 48 57 c || N.eqb c 45.

(** The three ways a code unit can stand at the head of a string. *)
Variant unitClass (c : codeunit) : Prop :=
| ClassTrailing : isTrailingSurrogate c = true -> unitClass c
| ClassLeading : isLeadingSurrogate c = true ->
    isTrailingSurrogate c = false -> unitClass c
| ClassScalar : isLeadingSurrogate c = false ->
    isTrailingSurrogate c = false -> unitClass c.

(** What [Encode] appends for a code unit that is not a surrogate. *)
Definition scalarPiece (c : codeunit) : jsstring :=
  if uriUnescaped c then [c] else percentEncode c.

(** How [encodeURIComponent] completes on a string. *)
Definition encodes (s : jsstring) : Prop :=
  if isWellFormed s
  then exists r, encodeURIComponent s = Normal r
  else encodeURIComponent s = Throw URIError.

(** Equality of two strings, [a === b]. *)
Fixpoint strictEquals (a b : jsstring) : bool :=
  match a, b with
  | [], [] => true
  | c :: a', d :: b' => N.eqb c d && strictEquals a' b'
  | _, _ => false
  end.

(** ** Caption *)

(** What the template literal of the caption puts after the family name. *)
Definition captionTail (currentYear : Z) : jsstring :=
  js " " ++ captionSeparator ++ js " Holiday " ++ numberToString currentYear.

(** The encoded separator as the code produces it. *)
Definition encodedCaptionTail (currentYear : Z) : jsstring :=
  js "%20%C3%A2%E2%82%AC%E2%80%9C%20Holiday%20" ++ numberToString currentYear.

(** The caption as the specification words it: the label, a space, an
    en dash (U+2013), a space, the word Holiday, a space, the year. *)
Definition enDash : codeunit := 0x2013%N.

Definition specTextContent (label : jsstring) (year : Z) : jsstring :=
  label ++ js " " ++ [enDash] ++ js " Holiday " ++ numberToString year.

(** ** Overlays and assembly *)

(** The overlay of a position paired with a photo. *)
Definition pairOverlay (sp : Position * Photo) : jsstring :=
  overlay (fst sp) (snd sp).

(** Everything an overlay holds after its source component. *)
Definition overlayTail (position : Position) : jsstring :=
  js "c_fill,w_" ++ numberToString (width position)
  ++ js ",h_" ++ numberToString (height position)
  ++ js "/r_" ++ numberToString cornerRadius
  ++ js ",bo_" ++ numberToString borderWidth ++ js "px_solid_" ++ goldColor
  ++ js "/fl_layer_apply," ++ join (js ",") (positionParams position).

(** The URL the builder assembles around a given text segment. *)
Definition assembled (cloudName : jsstring) (photos : list Photo)
    (text : jsstring) : jsstring :=
  baseUrl cloudName ++ js "/"
  ++ join (js "/")
       (segments (map pairOverlay (combine photoPositions photos)) text).

(** The part of the URL before the ribbon. *)
Definition front (cloudName : jsstring) (photos : list Photo) : jsstring :=
  baseUrl cloudName ++ js "/"
  ++ join (js "/")
       ([baseTransform] ++ map pairOverlay (combine photoPositions photos)).

(** ** Components and tokens of a segment *)

(** A component of a segment is a layer-apply component when the first of
    its comma-separated tokens is the flag [fl_layer_apply]. *)
Definition isLayerApply (component : jsstring) : bool :=
  match split comma component with
  | flag :: _ => strictEquals flag (js "fl_layer_apply")
  | [] => false
  end.

Definition layerApplyCount (segment : jsstring) : nat :=
  List.length (filter isLayerApply (split solidus segment)).

(** Every comma-separated token of every component of a URL. *)
Definition tokens (url : jsstring) : list jsstring :=
  flat_map (split comma) (split solidus url).

Definition cropComponent (position : Position) : jsstring :=
  js "c_fill,w_" ++ numberToString (width position)
  ++ js ",h_" ++ numberToString (height position).

Definition applyComponent (position : Position) : jsstring :=
  js "fl_layer_apply," ++ join (js ",") (positionParams position).

(** ** Slots *)

(** The enumeration order of the slots: column 1 (full height), column 2
    top and bottom, column 3 top and bottom. *)
Definition slotColumn (i : nat) : Z := nth i [0; 1; 1; 2; 2] 0.
Definition slotInBottomRow (i : nat) : bool :=
  nth i [false; false; true; false; true] false.

(** A slot as a rectangle of the canvas. *)
Definition insideUsable (canvasWidth usableHeight margin : Z) (p : Position) : Prop :=
  margin <= x p /\ margin <= y p
  /\ x p + width p <= canvasWidth - margin
  /\ y p + height p <= usableHeight - margin.

Definition overlaps (a b : Position) : Prop :=
  x a < x b + width b /\ x b < x a + width a
  /\ y a < y b + height b /\ y b < y a + height a.

(** Two rectangles with a clear band of [g] pixels between them, side by
    side or one above the other. *)
Definition separatedBy (g : Z) (a b : Position) : Prop :=
  x a + width a + g <= x b \/ x b + width b + g <= x a
  \/ y a + height a + g <= y b \/ y b + height b + g <= y a.

(** The cell stacked above a bottom-row slot is the slot listed just
    before it. *)
Definition cellAbove (i : nat) : option Position :=
  if slotInBottomRow i then nth_error photoPositions (pred i) else None.

(** Five photos, the first with a comma in its publicId. *)
Definition commaPhotos : list Photo :=
  map (fun s => {| publicId := js s |})
    ["x,fl_layer_apply"; "c"; "d/e/f"; "g"; "h"]%string.

(** ** Vocabulary of the further properties *)

(** Code units are 16-bit. *)
Definition validUnits (s : jsstring) : Prop :=
  Forall (fun c => (c < 65536)%N) s.

(** What [encodeURIComponent] may write: an unescaped code unit or the
    percent sign. *)
Definition percentSign : codeunit := 37%N.

Definition isUriSafe (c : codeunit) : bool :=
  uriUnescaped c || N.eqb c percentSign.


(** The positions in the order the source lists them. *)
Definition positionIndex (position : App.Position) : nat :=
  match position with
  | App.Position1 => 0
  | App.Position2 => 1
  | App.Position3 => 2
  | App.Position4 => 3
  | App.Position5 => 4
  end.

(** The photo [handleUpload] makes of an upload result. *)
Definition photoOf (info : App.UploadInfo) : App.Photo :=
  {| App.publicId := App.public_id info; App.url := App.secure_url info |}.

(** The test [removePhoto] filters with. *)
Definition keeps (photoToRemove photo : App.Photo) : bool :=
  negb (App.stringEquals (App.publicId photo) (App.publicId photoToRemove)).

(** How many photos the layout holds. *)
Definition placedCount (layout : App.CollageLayout) : nat :=
  List.length (App.getPhotosInLayout layout).

(** The handlers as events of the component; the two halves of
    [handleFiles] are two events, so that anything may come between
    them. *)
Inductive Event : Type :=
| Upload (info : App.UploadInfo)
| FilesBegin (cloudName uploadPreset : jsstring) (files : list App.File)
| FilesSettle (settledWith : option (list App.UploadInfo))
| DragStart (photo : App.Photo) (fromPosition : option App.Position)
| DragEnd
| Drop (position : App.Position)
| RemoveFromPosition (position : App.Position)
| RemovePhoto (photo : App.Photo).

Definition step (s : App.State) (e : Event) : App.State :=
  match e with
  | Upload info => App.handleUpload info s
  | FilesBegin cloudName uploadPreset files =>
      App.stateNow (App.handleFilesBegin cloudName uploadPreset files s)
  | FilesSettle settledWith => fst (App.handleFilesSettle settledWith s)
  | DragStart photo fromPosition => App.handlePhotoDragStart photo fromPosition s
  | DragEnd => App.handlePhotoDragEnd s
  | Drop position => App.handlePositionDrop position s
  | RemoveFromPosition position => App.removeFromPosition position s
  | RemovePhoto photo => App.removePhoto photo s
  end.

Definition run (events : list Event) : App.State :=
  fold_left step events App.initialState.

(** * Properties of the runtime fragment *)

(** ** The encoder on sample strings *)

Example encode_en_dash :
  encodeURIComponent [0x2013%N] = Normal (js "%E2%80%93").
Proof. reflexivity. Qed.

Example encode_space_word :
  encodeURIComponent (js "a b/c_d") = Normal (js "a%20b%2Fc_d").
Proof. reflexivity. Qed.

Example encode_astral :
  encodeURIComponent [0xD83C%N; 0xDF84%N] = Normal (js "%F0%9F%8E%84").
Proof. reflexivity. Qed.

Example encode_lone :
  encodeURIComponent [0xD83C%N] = Throw URIError.
Proof. reflexivity. Qed.

Example number_473 : numberToString 473 = js "473".
Proof. reflexivity. Qed.

Section Strings.

Lemma js_units_ascii (s : string) : Forall (fun c => (c < 256)%N) (js s).
Proof.
  unfold js. induction s as [|a s IH]; simpl; constructor; auto.
  apply N_ascii_bounded.
Qed.

Lemma uint_units (d : Decimal.uint) :
  Forall (fun c => isDecimalUnit c = true) (js (NilEmpty.string_of_uint d)).
Proof.
  induction d; simpl; try constructor; auto.
Qed.

Lemma numberToString_units (z : Z) :
  Forall (fun c => isDecimalUnit c = true) (numberToString z).
Proof.
  unfold numberToString, NilZero.string_of_int, NilZero.string_of_uint.
  destruct (Z.to_int z) as [d|d].
  - destruct d; try exact (uint_units _). repeat constructor.
  - change (js (String "-" ?s)) with (45%N :: js s).
    constructor; [reflexivity|].
    destruct d; try exact (uint_units _). repeat constructor.
Qed.

Lemma decimal_unescaped (c : codeunit) :
  isDecimalUnit c = true -> uriUnescaped c = true.
Proof.
  unfold isDecimalUnit, uriUnescaped. intros H.
  apply orb_true_iff in H. destruct H as [H|H].
  - rewrite H. rewrite !orb_true_r. reflexivity.
  - apply N.eqb_eq in H. subst c. reflexivity.
Qed.

Lemma unescaped_ascii (c : codeunit) :
  uriUnescaped c = true -> (c < 128)%N.
Proof.
  unfold uriUnescaped, inRange. cbn [existsb js list_ascii_of_string map].
  rewrite !orb_true_iff, !andb_true_iff, !N.leb_le, !N.eqb_eq.
  cbn. lia.
Qed.

Lemma below_surrogates (c : codeunit) :
  (c < 0xD800)%N -> isLeadingSurrogate c = false /\ isTrailingSurrogate c = false.
Proof.
  intros H. unfold isLeadingSurrogate, isTrailingSurrogate, inRange.
  split; apply andb_false_iff; left; apply N.leb_gt; lia.
Qed.

Lemma trailing_not_leading (c : codeunit) :
  isTrailingSurrogate c = true -> isLeadingSurrogate c = false.
Proof.
  unfold isLeadingSurrogate, isTrailingSurrogate, inRange.
  rewrite andb_true_iff, andb_false_iff, !N.leb_le, !N.leb_gt. lia.
Qed.

(** Induction two code units at a time, the way [Encode] walks a string. *)
Lemma jsstring_pair_ind (P : jsstring -> Prop) :
  P [] ->
  (forall c, P [c]) ->
  (forall c d s, P s -> P (d :: s) -> P (c :: d :: s)) ->
  forall s, P s.
Proof.
  intros H0 H1 H2 s.
  assert (H : P s /\ forall c, P (c :: s)); [|tauto].
  induction s as [|d s [IHs IHc]]; split; auto.
Qed.

End Strings.

(** ** [encodeURIComponent] succeeds exactly on well-formed strings *)

Section Encode.

Lemma encode_unescaped c rest :
  uriUnescaped c = true ->
  encodeURIComponent (c :: rest)
  = (r <- encodeURIComponent rest ;; Normal (c :: r)).
Proof. intros H. simpl. rewrite H. reflexivity. Qed.

Lemma encode_scalar c rest :
  uriUnescaped c = false ->
  isTrailingSurrogate c = false ->
  isLeadingSurrogate c = false ->
  encodeURIComponent (c :: rest)
  = (r <- encodeURIComponent rest ;; Normal (percentEncode c ++ r)).
Proof. intros Hu Ht Hl. simpl. rewrite Hu, Ht, Hl. reflexivity. Qed.

Lemma encode_trailing c rest :
  isTrailingSurrogate c = true ->
  encodeURIComponent (c :: rest) = Throw URIError.
Proof.
  intros Ht. simpl. rewrite Ht.
  destruct (uriUnescaped c) eqn:Hu; [|reflexivity].
  apply unescaped_ascii in Hu.
  destruct (below_surrogates c) as [_ Hc]; [lia|congruence].
Qed.

Lemma encode_leading c rest :
  isLeadingSurrogate c = true ->
  encodeURIComponent (c :: rest)
  = match rest with
    | [] => Throw URIError
    | d :: rest' =>
        if isTrailingSurrogate d then
          r <- encodeURIComponent rest' ;;
          Normal (percentEncode (utf16SurrogatePairToCodePoint c d) ++ r)
        else Throw URIError
    end.
Proof.
  intros Hl. simpl. rewrite Hl.
  destruct (uriUnescaped c) eqn:Hu.
  - apply unescaped_ascii in Hu.
    destruct (below_surrogates c) as [Hc _]; [lia|congruence].
  - destruct (isTrailingSurrogate c) eqn:Ht; [|reflexivity].
    apply trailing_not_leading in Ht. congruence.
Qed.

Lemma wellFormed_cons c rest :
  isWellFormed (c :: rest)
  = if isTrailingSurrogate c then false
    else if isLeadingSurrogate c then
      match rest with
      | [] => false
      | d :: rest' => isTrailingSurrogate d && isWellFormed rest'
      end
    else isWellFormed rest.
Proof. reflexivity. Qed.

Lemma classify (c : codeunit) : unitClass c.
Proof.
  destruct (isTrailingSurrogate c) eqn:Ht; [now apply ClassTrailing|].
  destruct (isLeadingSurrogate c) eqn:Hl;
    [now apply ClassLeading | now apply ClassScalar].
Qed.

Lemma encode_scalar_step c rest :
  isLeadingSurrogate c = false -> isTrailingSurrogate c = false ->
  encodeURIComponent (c :: rest)
  = (r <- encodeURIComponent rest ;; Normal (scalarPiece c ++ r)).
Proof.
  intros Hl Ht. unfold scalarPiece. destruct (uriUnescaped c) eqn:Hu.
  - now apply encode_unescaped.
  - now apply encode_scalar.
Qed.

Lemma encode_total (s : jsstring) : encodes s.
Proof.
  unfold encodes.
  induction s as [|c|c d s IHs IHd] using jsstring_pair_ind.
  - exists []. reflexivity.
  - rewrite wellFormed_cons. destruct (classify c) as [Ht|Hl Ht|Hl Ht].
    + rewrite Ht. now apply encode_trailing.
    + rewrite Ht, Hl. now rewrite encode_leading.
    + rewrite Ht, Hl.
      rewrite (encode_scalar_step c [] Hl Ht). simpl. eauto.
  - rewrite wellFormed_cons. destruct (classify c) as [Ht|Hl Ht|Hl Ht].
    + rewrite Ht. now apply encode_trailing.
    + rewrite Ht, Hl, encode_leading by assumption.
      destruct (isTrailingSurrogate d); [|reflexivity]. simpl.
      destruct (isWellFormed s).
      * destruct IHs as [r ->]. simpl. eauto.
      * rewrite IHs. reflexivity.
    + rewrite Ht, Hl.
      rewrite (encode_scalar_step c (d :: s) Hl Ht).
      destruct (isWellFormed (d :: s)).
      * destruct IHd as [r ->]. simpl. eauto.
      * rewrite IHd. reflexivity.
Qed.

Lemma encode_wellFormed (s : jsstring) :
  isWellFormed s = true -> exists r, encodeURIComponent s = Normal r.
Proof. intros H. generalize (encode_total s). unfold encodes. now rewrite H. Qed.

Lemma encode_illFormed (s : jsstring) :
  isWellFormed s = false -> encodeURIComponent s = Throw URIError.
Proof. intros H. generalize (encode_total s). unfold encodes. now rewrite H. Qed.

Lemma encode_normal_wellFormed (s r : jsstring) :
  encodeURIComponent s = Normal r -> isWellFormed s = true.
Proof.
  intros H. destruct (isWellFormed s) eqn:Hw; [reflexivity|].
  rewrite (encode_illFormed s Hw) in H. discriminate.
Qed.

Lemma small_units_wellFormed (s : jsstring) :
  Forall (fun c => (c < 0xD800)%N) s -> isWellFormed s = true.
Proof.
  induction 1 as [|c s Hc _ IH]; [reflexivity|].
  rewrite wellFormed_cons.
  destruct (below_surrogates c Hc) as [-> ->]. exact IH.
Qed.

(** Appending a suffix that does not begin with a trailing surrogate:
    the two halves are judged apart. *)
Lemma wellFormed_app (a : jsstring) (c : codeunit) (b : jsstring) :
  isTrailingSurrogate c = false ->
  isWellFormed (a ++ c :: b) = isWellFormed a && isWellFormed (c :: b).
Proof.
  intros Hc.
  induction a as [|u|u v s IHs IHv] using jsstring_pair_ind.
  - reflexivity.
  - change ([u] ++ c :: b) with (u :: c :: b).
    rewrite (wellFormed_cons u (c :: b)), (wellFormed_cons u []).
    destruct (isTrailingSurrogate u); [reflexivity|].
    destruct (isLeadingSurrogate u); [now rewrite Hc|reflexivity].
  - change ((u :: v :: s) ++ c :: b) with (u :: v :: (s ++ c :: b)).
    rewrite (wellFormed_cons u (v :: s ++ c :: b)), (wellFormed_cons u (v :: s)).
    destruct (isTrailingSurrogate u); [reflexivity|].
    destruct (isLeadingSurrogate u).
    + rewrite IHs. now rewrite andb_assoc.
    + exact IHv.
Qed.

(** Encoding distributes over an append whose first half encodes. *)
Lemma encode_app (a b ra : jsstring) :
  encodeURIComponent a = Normal ra ->
  encodeURIComponent (a ++ b)
  = (rb <- encodeURIComponent b ;; Normal (ra ++ rb)).
Proof.
  revert ra.
  induction a as [|u|u v s IHs IHv] using jsstring_pair_ind; intros ra Ha.
  - injection Ha as <-. simpl. now destruct (encodeURIComponent b).
  - change ([u] ++ b) with (u :: b).
    destruct (classify u) as [Ht|Hl Ht|Hl Ht].
    + rewrite encode_trailing in Ha by assumption. discriminate.
    + rewrite encode_leading in Ha by assumption. discriminate.
    + rewrite encode_scalar_step in Ha |- * by assumption.
      simpl in Ha. injection Ha as <-. rewrite app_nil_r. reflexivity.
  - change ((u :: v :: s) ++ b) with (u :: v :: (s ++ b)).
    destruct (classify u) as [Ht|Hl Ht|Hl Ht].
    + rewrite encode_trailing in Ha by assumption. discriminate.
    + rewrite encode_leading in Ha |- * by assumption.
      destruct (isTrailingSurrogate v); [|discriminate].
      destruct (encodeURIComponent s) as [rs|e] eqn:Es; [|discriminate].
      simpl in Ha. injection Ha as <-.
      rewrite (IHs rs eq_refl).
      destruct (encodeURIComponent b); simpl; [|reflexivity].
      now rewrite app_assoc.
    + rewrite encode_scalar_step in Ha |- * by assumption.
      destruct (encodeURIComponent (v :: s)) as [rs|e] eqn:Es; [|discriminate].
      simpl in Ha. injection Ha as <-.
      change (v :: s ++ b) with ((v :: s) ++ b).
      rewrite (IHv rs eq_refl).
      destruct (encodeURIComponent b); simpl; [|reflexivity].
      now rewrite app_assoc.
Qed.

(** A string of unescaped code units is its own encoding. *)
Lemma encode_unescaped_all (s : jsstring) :
  Forall (fun c => uriUnescaped c = true) s ->
  encodeURIComponent s = Normal s.
Proof.
  induction 1 as [|c s Hc _ IH]; [reflexivity|].
  rewrite encode_unescaped, IH by assumption. reflexivity.
Qed.

Lemma encode_number (z : Z) :
  encodeURIComponent (numberToString z) = Normal (numberToString z).
Proof.
  apply encode_unescaped_all.
  eapply Forall_impl; [|apply numberToString_units].
  exact decimal_unescaped.
Qed.

End Encode.

(** * Properties of the builder *)

(** ** The caption *)

Section Caption.

Lemma textContent_tail familyName currentYear :
  textContent familyName currentYear = familyName ++ captionTail currentYear.
Proof. reflexivity. Qed.

Lemma js_units_small (s : string) : Forall (fun c => (c < 0xD800)%N) (js s).
Proof.
  eapply Forall_impl; [|apply js_units_ascii].
  intros c Hc. simpl in Hc. lia.
Qed.

Lemma captionTail_wellFormed currentYear :
  isWellFormed (captionTail currentYear) = true.
Proof.
  apply small_units_wellFormed. unfold captionTail.
  apply Forall_app; split; [apply js_units_small|].
  apply Forall_app; split.
  { unfold captionSeparator. repeat (constructor; [reflexivity|]). constructor. }
  apply Forall_app; split; [apply js_units_small|].
  unfold numberToString. apply js_units_small.
Qed.

Lemma textContent_wellFormed familyName currentYear :
  isWellFormed (textContent familyName currentYear) = isWellFormed familyName.
Proof.
  rewrite textContent_tail.
  change (captionTail currentYear)
    with (32%N :: captionSeparator ++ js " Holiday " ++ numberToString currentYear).
  rewrite wellFormed_app by reflexivity.
  change (32%N :: captionSeparator ++ js " Holiday " ++ numberToString currentYear)
    with (captionTail currentYear).
  rewrite captionTail_wellFormed. apply andb_true_r.
Qed.

Lemma captionTail_encoded currentYear :
  encodeURIComponent (captionTail currentYear)
  = Normal (encodedCaptionTail currentYear).
Proof.
  unfold captionTail. rewrite !app_assoc.
  rewrite (encode_app _ _ (js "%20%C3%A2%E2%82%AC%E2%80%9C%20Holiday%20"))
    by reflexivity.
  rewrite encode_number. reflexivity.
Qed.

Lemma textOverlay_encoded familyName currentYear encodedName :
  encodeURIComponent familyName = Normal encodedName ->
  textOverlay familyName currentYear
  = Normal (js "l_text:Pacifico_70:" ++ encodedName
            ++ encodedCaptionTail currentYear
            ++ js ",co_rgb:000000/fl_layer_apply,g_south,y_20").
Proof.
  intros He. unfold textOverlay.
  rewrite textContent_tail, (encode_app _ _ _ He), captionTail_encoded.
  simpl bind. rewrite <- app_assoc. reflexivity.
Qed.

Lemma textOverlay_throws familyName currentYear :
  isWellFormed familyName = false ->
  textOverlay familyName currentYear = Throw URIError.
Proof.
  intros Hw. unfold textOverlay.
  rewrite encode_illFormed; [reflexivity|].
  now rewrite textContent_wellFormed.
Qed.

Lemma textOverlay_returns familyName currentYear :
  isWellFormed familyName = true ->
  exists text, textOverlay familyName currentYear = Normal text.
Proof.
  intros Hw. destruct (encode_wellFormed _ Hw) as [e He].
  rewrite (textOverlay_encoded _ _ _ He). eauto.
Qed.

End Caption.

(** ** The [forEach] over the photos *)

Section Loop.

Lemma skipn_nth_error {A} (l : list A) (n : nat) (a : A) :
  nth_error l n = Some a -> skipn n l = a :: skipn (S n) l.
Proof.
  revert l. induction n as [|n IH]; intros [|b l] H; try discriminate.
  - injection H as ->. reflexivity.
  - simpl in H. rewrite (skipn_cons n b l). now apply IH.
Qed.

(** With enough positions left, the loop pushes one overlay per photo,
    photo [k] taking position [index + k]. *)
Lemma forEachPhoto_zip positions photos :
  forall index acc,
    (index + List.length photos <= List.length positions)%nat ->
    forEachPhoto positions photos index acc
    = Normal (acc ++ map pairOverlay (combine (skipn index positions) photos)).
Proof.
  induction photos as [|photo rest IH]; intros index acc Hlen.
  - simpl. now rewrite combine_nil, app_nil_r.
  - simpl in Hlen. simpl forEachPhoto.
    destruct (nth_error positions index) as [position|] eqn:Hn.
    + rewrite IH by lia.
      rewrite (skipn_nth_error _ _ _ Hn). simpl.
      rewrite <- app_assoc. reflexivity.
    + apply nth_error_None in Hn. lia.
Qed.

End Loop.

(** ** Splitting a segment into its components *)

Section Split.

Lemma split_app (sep : codeunit) (a b : jsstring) :
  Forall (fun c => c <> sep) a ->
  split sep (a ++ sep :: b) = a :: split sep b.
Proof.
  induction 1 as [|c a Hc _ IH]; simpl.
  - now rewrite N.eqb_refl.
  - apply N.eqb_neq in Hc. now rewrite Hc, IH.
Qed.

Lemma split_free (sep : codeunit) (a : jsstring) :
  Forall (fun c => c <> sep) a -> split sep a = [a].
Proof.
  induction 1 as [|c a Hc _ IH]; simpl; [reflexivity|].
  apply N.eqb_neq in Hc. now rewrite Hc, IH.
Qed.

Lemma replaceSlashes_keeps_free (sep : codeunit) (s : jsstring) :
  sep <> colon -> Forall (fun c => c <> sep) s ->
  Forall (fun c => c <> sep) (replaceSlashes s).
Proof.
  intros Hsep. unfold replaceSlashes.
  induction 1 as [|c s Hc _ IH]; simpl; constructor; auto.
  destruct (N.eqb c solidus); [congruence|assumption].
Qed.

Lemma replaceSlashes_free (s : jsstring) :
  Forall (fun c => c <> solidus) (replaceSlashes s).
Proof.
  unfold replaceSlashes. induction s as [|c s IH]; simpl; constructor; auto.
  destruct (N.eqb c solidus) eqn:E.
  - discriminate.
  - now apply N.eqb_neq.
Qed.

Lemma overlay_source (position : Position) (photo : Photo) :
  overlay position photo
  = (js "l_" ++ replaceSlashes (publicId photo))
    ++ solidus :: overlayTail position.
Proof. unfold overlay. rewrite app_assoc. reflexivity. Qed.

Lemma split_overlay (position : Position) (photo : Photo) :
  split solidus (overlay position photo)
  = (js "l_" ++ replaceSlashes (publicId photo))
    :: split solidus (overlayTail position).
Proof.
  rewrite overlay_source. apply split_app.
  apply Forall_app; split; [|apply replaceSlashes_free].
  repeat (constructor; [discriminate|]). constructor.
Qed.

End Split.

(** ** The two paths through the builder *)

Lemma falsy_false (s : jsstring) : s <> [] -> falsy s = false.
Proof. destruct s; [congruence|reflexivity]. Qed.

Section Paths.

Variable w : World.
Variables (cloudName : jsstring) (photos : list Photo) (familyName : jsstring).

Lemma returned_guard :
  cloudName = [] \/ List.length photos <> 5%nat ->
  returned w cloudName photos familyName = Normal [].
Proof.
  unfold returned, buildCollageUrl. intros [->|Hlen]; [reflexivity|].
  destruct (falsy cloudName); [reflexivity|].
  apply Nat.eqb_neq in Hlen. now rewrite Hlen.
Qed.

Lemma photoOverlays_five :
  List.length photos = 5%nat ->
  photoOverlays photos = Normal (map pairOverlay (combine photoPositions photos)).
Proof.
  intros Hlen. unfold photoOverlays.
  rewrite forEachPhoto_zip; [reflexivity|].
  rewrite Hlen. simpl. lia.
Qed.

Lemma returned_valid :
  cloudName <> [] -> List.length photos = 5%nat ->
  returned w cloudName photos familyName
  = (text <- textOverlay familyName (clockYear w) ;;
     Normal (assembled cloudName photos text)).
Proof.
  intros Hc Hlen. unfold returned, buildCollageUrl.
  rewrite (falsy_false _ Hc), Hlen. simpl negb. cbv iota.
  rewrite (photoOverlays_five Hlen).
  destruct (textOverlay familyName (clockYear w)); reflexivity.
Qed.

Lemma assembled_nonempty (text : jsstring) :
  assembled cloudName photos text <> [].
Proof. unfold assembled, baseUrl. discriminate. Qed.

End Paths.

(** ** Geometry of the five slots *)

Section LayoutLaws.

Variables cw ch ts m g : Z.

Local Abbreviation uH := (Layout.usableHeight ch ts).
Local Abbreviation aW := (Layout.availableWidth cw m g).
Local Abbreviation aH := (Layout.availableHeight ch ts m g).
Local Abbreviation colW := (Layout.columnWidth cw m g).
Local Abbreviation r1 := (Layout.row1Height ch ts m g).
Local Abbreviation r2 := (Layout.row2Height ch ts m g).
Local Abbreviation slots := (Layout.photoPositions cw ch ts m g).

Lemma rows_fill_available : r1 + r2 = aH.
Proof. unfold Layout.row2Height. lia. Qed.

Lemma column1_spans_rows :
  Layout.col1Height ch ts m g = uH - 2 * m.
Proof.
  unfold Layout.col1Height.
  generalize rows_fill_available.
  unfold Layout.availableHeight. lia.
Qed.

Lemma three_columns_fit : 3 * colW <= aW.
Proof.
  unfold Layout.columnWidth, mathFloorDiv.
  apply Z.mul_div_le. lia.
Qed.

Lemma columnWidth_nonneg : 0 <= aW -> 0 <= colW.
Proof.
  intros H. unfold Layout.columnWidth, mathFloorDiv.
  apply Z.div_pos; lia.
Qed.

Lemma row1_range : 0 <= aH -> 0 <= r1 <= aH.
Proof.
  intros H. unfold Layout.row1Height, mathFloorDiv. split.
  - apply Z.div_pos; lia.
  - assert (3 * (aH * 2 / 3) <= aH * 2) by (apply Z.mul_div_le; lia). lia.
Qed.

Lemma slots_widths : map width slots = [colW; colW; colW; colW; colW].
Proof. reflexivity. Qed.

Lemma slots_heights : map height slots = [r1 + g + r2; r1; r2; r2; r1].
Proof. reflexivity. Qed.

Lemma slots_x :
  map x slots
  = map (fun i => m + slotColumn i * colW + slotColumn i * g)
      [0; 1; 2; 3; 4]%nat.
Proof.
  unfold Layout.photoPositions, slotColumn.
  cbn [map nth x].
  repeat (apply f_equal2; [lia|]). reflexivity.
Qed.

Lemma slots_y : map y slots = [m; m; m + r1 + g; m; m + r2 + g].
Proof. reflexivity. Qed.

Lemma slots_inside :
  0 <= g -> 0 <= aW -> 0 <= aH ->
  Forall (insideUsable cw uH m) slots.
Proof.
  intros Hg Hw Hh.
  pose proof three_columns_fit as H3.
  pose proof (columnWidth_nonneg Hw) as Hc.
  pose proof (row1_range Hh) as Hr.
  pose proof rows_fill_available as Hs.
  unfold Layout.photoPositions, Layout.col1Height,
    Layout.col2TopHeight, Layout.col2BottomHeight,
    Layout.col3TopHeight, Layout.col3BottomHeight.
  unfold Layout.availableWidth in H3, Hw.
  unfold Layout.availableHeight in Hr, Hs, Hh.
  repeat constructor; simpl; lia.
Qed.

Lemma slots_separated :
  ForallOrdPairs (separatedBy g) slots.
Proof.
  unfold Layout.photoPositions, Layout.col1Height,
    Layout.col2TopHeight, Layout.col2BottomHeight,
    Layout.col3TopHeight, Layout.col3BottomHeight.
  repeat (constructor; [repeat (constructor; [unfold separatedBy; simpl; lia|]);
                        constructor|]).
  constructor.
Qed.

Lemma separated_disjoint (a b : Position) :
  0 <= g -> separatedBy g a b -> ~ overlaps a b.
Proof. unfold separatedBy, overlaps. lia. Qed.

End LayoutLaws.

Lemma ForallOrdPairs_impl {A} (R S : A -> A -> Prop) (l : list A) :
  (forall a b, R a b -> S a b) -> ForallOrdPairs R l -> ForallOrdPairs S l.
Proof.
  intros HRS. induction 1 as [|a l Ha _ IH]; constructor; auto.
  eapply Forall_impl; [|exact Ha]. auto.
Qed.

(** ** The photo overlay segments *)

Section Overlays.

Lemma nth_error_zip (positions : list Position) :
  forall (photos : list Photo) (i : nat) position photo,
    nth_error positions i = Some position ->
    nth_error photos i = Some photo ->
    nth_error (map pairOverlay (combine positions photos)) i
    = Some (overlay position photo).
Proof.
  induction positions as [|s positions IH]; intros photos i position photo Hs Hp.
  - destruct i; discriminate.
  - destruct photos as [|p photos]; [destruct i; discriminate|].
    destruct i as [|i]; simpl in *.
    + injection Hs as <-. injection Hp as <-. reflexivity.
    + now apply IH.
Qed.

Lemma zip_length (photos : list Photo) :
  List.length photos = 5%nat ->
  List.length (map pairOverlay (combine photoPositions photos)) = 5%nat.
Proof.
  intros H. rewrite length_map, length_combine, H. reflexivity.
Qed.

(** The components after the source, slot by slot. *)
Lemma overlayTail_components (position : Position) :
  In position photoPositions ->
  split solidus (overlayTail position)
  = [cropComponent position; js "r_25,bo_8px_solid_rgb:FFD700";
     applyComponent position]
  /\ map isLayerApply (split solidus (overlayTail position))
     = [false; false; true].
Proof.
  intros Hin. simpl in Hin.
  repeat (destruct Hin as [<-|Hin]; [split; vm_compute; reflexivity|]).
  contradiction.
Qed.

Lemma applyComponent_tokens (position : Position) :
  In position photoPositions ->
  0 < x position
  /\ split comma (applyComponent position)
     = [js "fl_layer_apply"; js "g_north_west";
        js "x_" ++ numberToString (x position);
        js "y_" ++ numberToString (y position)].
Proof.
  intros Hin. simpl in Hin.
  repeat (destruct Hin as [<-|Hin]; [split; vm_compute; reflexivity|]).
  contradiction.
Qed.

Lemma split_head (sep c : codeunit) (s : jsstring) :
  c <> sep -> exists h t, split sep (c :: s) = (c :: h) :: t.
Proof.
  intros Hc. simpl. apply N.eqb_neq in Hc. rewrite Hc.
  destruct (split sep s) as [|h t]; eauto.
Qed.

Lemma source_not_layerApply (id : jsstring) :
  isLayerApply (js "l_" ++ id) = false.
Proof.
  unfold isLayerApply.
  destruct (split_head comma 108%N (95%N :: id)) as [h [t E]]; [discriminate|].
  assert (E' : split comma (js "l_" ++ id) = (108%N :: h) :: t) by exact E.
  rewrite E'. reflexivity.
Qed.

Lemma filter_length_flags {A} (f : A -> bool) (l : list A) :
  List.length (filter f l)
  = List.length (filter (fun flag : bool => flag) (map f l)).
Proof.
  induction l as [|a l IH]; [reflexivity|].
  simpl. destruct (f a); simpl; now rewrite IH.
Qed.

Lemma overlay_components (position : Position) (photo : Photo) :
  In position photoPositions ->
  split solidus (overlay position photo)
  = [js "l_" ++ replaceSlashes (publicId photo);
     cropComponent position;
     js "r_25,bo_8px_solid_rgb:FFD700";
     applyComponent position]
  /\ layerApplyCount (overlay position photo) = 1%nat.
Proof.
  intros Hin. destruct (overlayTail_components position Hin) as [Ht Hm].
  unfold layerApplyCount. rewrite split_overlay. split.
  - now rewrite Ht.
  - cbn [filter]. rewrite source_not_layerApply.
    rewrite filter_length_flags, Hm. reflexivity.
Qed.

(** Read token by token: a source without a comma is one token, and the
    flag stands once among the tokens of the other three components. *)
Lemma overlayTail_flag_tokens (position : Position) :
  In position photoPositions ->
  List.length
    (filter (strictEquals (js "fl_layer_apply"))
       (flat_map (split comma) (split solidus (overlayTail position))))
  = 1%nat.
Proof.
  intros Hin. simpl in Hin.
  repeat (destruct Hin as [<-|Hin]; [vm_compute; reflexivity|]).
  contradiction.
Qed.

Lemma overlay_flag_tokens (position : Position) (photo : Photo) :
  In position photoPositions ->
  Forall (fun c => c <> comma) (publicId photo) ->
  List.length
    (filter (strictEquals (js "fl_layer_apply"))
       (tokens (overlay position photo)))
  = 1%nat.
Proof.
  intros Hin Hfree. unfold tokens.
  rewrite split_overlay. cbn [flat_map].
  rewrite split_free.
  - rewrite filter_app, length_app, (overlayTail_flag_tokens _ Hin).
    reflexivity.
  - apply Forall_app. split.
    + repeat (constructor; [discriminate|]). constructor.
    + apply replaceSlashes_keeps_free; [discriminate|exact Hfree].
Qed.

Lemma overlays_flag_tokens (zs : list (Position * Photo)) :
  (forall sp, In sp zs ->
              In (fst sp) photoPositions
              /\ Forall (fun c => c <> comma) (publicId (snd sp))) ->
  List.length
    (filter (strictEquals (js "fl_layer_apply"))
       (flat_map tokens (map pairOverlay zs)))
  = List.length zs.
Proof.
  induction zs as [|[position photo] zs IH]; intros Hin; [reflexivity|].
  destruct (Hin (position, photo) (or_introl eq_refl)) as [Hpos Hfree].
  cbn [fst snd] in Hpos, Hfree.
  cbn [map flat_map]. unfold pairOverlay at 1. cbn [fst snd].
  rewrite filter_app, length_app, (overlay_flag_tokens _ _ Hpos Hfree), IH.
  - reflexivity.
  - intros sp Hsp. apply Hin. now right.
Qed.

Lemma list_sum_ones (l : list nat) :
  Forall (fun n => n = 1%nat) l -> list_sum l = List.length l.
Proof.
  induction 1 as [|n l -> _ IH]; [reflexivity|].
  simpl. now rewrite IH.
Qed.

End Overlays.

(** ** The assembled URL *)

Section Assembly.

Lemma join_app (sep : jsstring) (l1 l2 : list jsstring) :
  l1 <> [] -> l2 <> [] ->
  join sep (l1 ++ l2) = join sep l1 ++ sep ++ join sep l2.
Proof.
  intros H1 H2. induction l1 as [|a l1 IH]; [congruence|].
  destruct l1 as [|b l1].
  - destruct l2; [congruence|reflexivity].
  - change (join sep ((a :: b :: l1) ++ l2))
      with (a ++ sep ++ join sep ((b :: l1) ++ l2)).
    rewrite IH by discriminate.
    change (join sep (a :: b :: l1)) with (a ++ sep ++ join sep (b :: l1)).
    now rewrite <- !app_assoc.
Qed.

Lemma Normal_eq {A} (a b : A) : Normal a = Normal b -> b = a.
Proof. now intros [= ->]. Qed.

Lemma returned_segments w cloudName photos familyName url :
  cloudName <> [] -> List.length photos = 5%nat ->
  returned w cloudName photos familyName = Normal url ->
  exists text,
    textOverlay familyName (clockYear w) = Normal text
    /\ url = assembled cloudName photos text.
Proof.
  intros Hc Hlen Hret. rewrite (returned_valid w _ _ _ Hc Hlen) in Hret.
  destruct (textOverlay familyName (clockYear w)) as [text|e];
    [|discriminate].
  injection Hret as <-. eauto.
Qed.

Lemma returned_wellFormed w cloudName photos familyName :
  cloudName <> [] -> List.length photos = 5%nat ->
  isWellFormed familyName = true ->
  exists url, returned w cloudName photos familyName = Normal url.
Proof.
  intros Hc Hlen Hw. rewrite (returned_valid w _ _ _ Hc Hlen).
  destruct (textOverlay_returns familyName (clockYear w) Hw) as [text ->].
  simpl. eauto.
Qed.

Lemma textOverlay_inv familyName currentYear text :
  textOverlay familyName currentYear = Normal text ->
  exists encodedText,
    encodeURIComponent (textContent familyName currentYear) = Normal encodedText
    /\ text = js "l_text:Pacifico_70:" ++ encodedText
              ++ js ",co_rgb:000000/fl_layer_apply,g_south,y_20".
Proof.
  unfold textOverlay. intros Ht.
  destruct (encodeURIComponent (textContent familyName currentYear))
    as [encodedText|e]; [|discriminate].
  injection Ht as <-. exists encodedText. split; reflexivity.
Qed.

Lemma assembled_tail cloudName photos text :
  assembled cloudName photos text
  = front cloudName photos
    ++ js "/" ++ whiteRibbon ++ js "/" ++ text ++ js "/" ++ backgroundId.
Proof.
  unfold assembled, front, segments.
  rewrite (app_assoc [baseTransform] _ _).
  rewrite join_app by (simpl; discriminate).
  change (join (js "/") [whiteRibbon; text; backgroundId])
    with (whiteRibbon ++ js "/" ++ text ++ js "/" ++ backgroundId).
  now rewrite <- !app_assoc.
Qed.

End Assembly.

(** * The claims *)

(** C1, as stated, fails: with a configured account and five photos the
    call does not always return a URL.  A family name holding an unpaired
    surrogate makes [encodeURIComponent] throw. *)
Lemma guard_clauses_only_abnormal_outcome_fails :
  ~ (forall w cloudName photos familyName,
        cloudName <> [] -> List.length photos = 5%nat ->
        exists url,
          returned w cloudName photos familyName = Normal url /\ url <> []).
Proof.
  intros H.
  destruct (H sampleWorld (js "demo") samplePhotos [0xD800%N]) as [url [E _]].
  - discriminate.
  - reflexivity.
  - vm_compute in E. discriminate.
Qed.

(** C1, amended: [buildCollageUrl] returns the empty string if and only if
    the cloud name is empty or the number of photos is not 5; on every
    other input it returns a non-empty URL when the family name is a
    well-formed UTF-16 string, and throws [URIError] when the family name
    holds an unpaired surrogate. *)
Theorem buildCollageUrl_outcomes
    (w : World) (cloudName : jsstring) (photos : list Photo)
    (familyName : jsstring) :
  (returned w cloudName photos familyName = Normal []
   <-> cloudName = [] \/ List.length photos <> 5%nat)
  /\ (cloudName <> [] -> List.length photos = 5%nat ->
      if isWellFormed familyName
      then exists url,
             returned w cloudName photos familyName = Normal url /\ url <> []
      else returned w cloudName photos familyName = Throw URIError).
Proof.
  assert (Hvalid : cloudName <> [] -> List.length photos = 5%nat ->
      if isWellFormed familyName
      then exists url,
             returned w cloudName photos familyName = Normal url /\ url <> []
      else returned w cloudName photos familyName = Throw URIError).
  { intros Hc Hlen. rewrite (returned_valid w _ _ _ Hc Hlen).
    destruct (isWellFormed familyName) eqn:Hw.
    - destruct (textOverlay_returns familyName (clockYear w) Hw) as [text ->].
      exists (assembled cloudName photos text). split; [reflexivity|].
      apply assembled_nonempty.
    - now rewrite textOverlay_throws. }
  split; [split|exact Hvalid].
  - intros Hret.
    destruct cloudName as [|c cs] eqn:Ec; [now left|]. right. intros Hlen.
    assert (Hc : c :: cs <> []) by discriminate.
    specialize (Hvalid Hc Hlen).
    destruct (isWellFormed familyName).
    + destruct Hvalid as [url [E Hne]]. rewrite Hret in E. congruence.
    + rewrite Hret in Hvalid. discriminate.
  - apply returned_guard.
Qed.

Lemma buildCollageUrl_outcomes_witness :
  (returned sampleWorld [] samplePhotos (js "Smith") = Normal []
   <-> (@nil codeunit) = [] \/ List.length samplePhotos <> 5%nat)
  /\ (exists url,
        returned sampleWorld (js "demo") samplePhotos (js "Smith") = Normal url
        /\ url <> [])
  /\ returned sampleWorld (js "demo") samplePhotos [0xDC00%N] = Throw URIError.
Proof.
  split; [|split].
  - exact (proj1 (buildCollageUrl_outcomes sampleWorld [] samplePhotos (js "Smith"))).
  - apply (proj2 (buildCollageUrl_outcomes sampleWorld (js "demo") samplePhotos
                    (js "Smith"))); [discriminate|reflexivity].
  - apply (proj2 (buildCollageUrl_outcomes sampleWorld (js "demo") samplePhotos
                    [0xDC00%N])); [discriminate|reflexivity].
Defined.

(** C2, as stated, fails: column 3's bottom slot does not sit at
    margin + row1 height + gap. *)
Lemma accumulation_rule_fails_in_column3 :
  ~ (forall i p,
        nth_error photoPositions i = Some p ->
        x p = margin + slotColumn i * columnWidth + slotColumn i * gap
        /\ y p = if slotInBottomRow i
                 then margin + row1Height + gap
                 else margin).
Proof.
  intros H.
  destruct (H 4%nat _ eq_refl) as [_ Hy].
  vm_compute in Hy. discriminate.
Qed.

(** C2, amended: for each of the five slots the x offset is the margin
    plus the widths of the columns before it plus the gaps before it; the
    y offset is the margin for a top-row slot, and for a bottom-row slot
    the margin plus the height of the cell above it in its own column plus
    the gap, which is margin + row1 height + gap in column 2 and
    margin + row2 height + gap in column 3. *)
Theorem slot_offsets_accumulate (i : nat) (p : Position) :
  nth_error photoPositions i = Some p ->
  x p = margin + slotColumn i * columnWidth + slotColumn i * gap
  /\ y p = match cellAbove i with
           | Some above => margin + height above + gap
           | None => margin
           end
  /\ (slotInBottomRow i = true ->
      y p = if slotColumn i =? 1
            then margin + row1Height + gap
            else margin + row2Height + gap).
Proof.
  intros Hp.
  assert (Hi : (i < 5)%nat).
  { change 5%nat with (List.length photoPositions).
    apply nth_error_Some. congruence. }
  destruct i as [|[|[|[|[|i]]]]]; try lia;
    injection Hp as <-; (split; [|split]);
    try reflexivity; try discriminate.
Qed.

Lemma slot_offsets_accumulate_witness :
  exists p, nth_error photoPositions 4 = Some p /\ x p = 1076 /\ y p = 304.
Proof.
  eexists. split; [reflexivity|].
  destruct (slot_offsets_accumulate 4 _ eq_refl) as [Hx [_ Hy]].
  split; [exact Hx|]. exact (Hy eq_refl).
Defined.

(** C3: the builder at the cloud name demo, the photos a/b, c, d/e/f, g, h,
    the label Smith and the year 2025.  The percent-encoded form of the
    caption Smith, space, en dash, space, Holiday 2025 is
    [Smith%20%E2%80%93%20Holiday%202025]; the
    text segment of the returned URL holds
    [Smith%20%C3%A2%E2%82%AC%E2%80%9C%20Holiday%202025] instead, the
    encoding of the three characters U+00E2 U+20AC U+201C that stand in
    the template literal where the en dash was meant, and the URL holds
    the expected form nowhere. *)
Theorem caption_separator_at_sample :
  encodeURIComponent (specTextContent (js "Smith") 2025)
  = Normal (js "Smith%20%E2%80%93%20Holiday%202025")
  /\ textOverlay (js "Smith") 2025
     = Normal (js "l_text:Pacifico_70:Smith%20%C3%A2%E2%82%AC%E2%80%9C%20Holiday%202025,co_rgb:000000/fl_layer_apply,g_south,y_20")
  /\ exists url,
       returned sampleWorld (js "demo") samplePhotos (js "Smith") = Normal url
       /\ includes url (js "Smith%20%E2%80%93%20Holiday%202025") = false
       /\ includes url (js "Smith%20%C3%A2%E2%82%AC%E2%80%9C%20Holiday%202025")
          = true.
Proof.
  split; [vm_compute; reflexivity|].
  split; [vm_compute; reflexivity|].
  eexists. split; [vm_compute; reflexivity|].
  split; vm_compute; reflexivity.
Qed.

(** C4: for a non-empty cloud name and five photos, every URL the builder
    returns is the base [https://res.cloudinary.com/<cloud>/image/upload]
    and, joined to it with [/], the base transform, the overlay of photo 1
    in slot 1, of photo 2 in slot 2, ... of photo 5 in slot 5, the ribbon,
    the text overlay and the background identifier, in that order; the
    builder returns such a URL whenever the family name encodes. *)
Theorem url_assembly_order
    (w : World) (cloudName : jsstring) (p1 p2 p3 p4 p5 : Photo)
    (familyName : jsstring) :
  cloudName <> [] ->
  (isWellFormed familyName = true ->
   exists url,
     returned w cloudName [p1; p2; p3; p4; p5] familyName = Normal url)
  /\ (forall url,
        returned w cloudName [p1; p2; p3; p4; p5] familyName = Normal url ->
        exists s1 s2 s3 s4 s5 text,
          photoPositions = [s1; s2; s3; s4; s5]
          /\ textOverlay familyName (clockYear w) = Normal text
          /\ url = join (js "/")
                     [js "https://res.cloudinary.com/" ++ cloudName
                        ++ js "/image/upload";
                      baseTransform;
                      overlay s1 p1; overlay s2 p2; overlay s3 p3;
                      overlay s4 p4; overlay s5 p5;
                      whiteRibbon; text; backgroundId]).
Proof.
  intros Hc. split.
  - now apply returned_wellFormed.
  - intros url Hret.
    destruct (returned_segments w cloudName [p1; p2; p3; p4; p5] familyName
                url Hc eq_refl Hret) as [text [Ht ->]].
    do 5 eexists. exists text.
    split; [reflexivity|]. split; [exact Ht|]. reflexivity.
Qed.

Lemma url_assembly_order_witness :
  exists url,
    returned sampleWorld (js "demo") samplePhotos (js "Smith") = Normal url
    /\ exists s1 s2 s3 s4 s5 text,
         photoPositions = [s1; s2; s3; s4; s5]
         /\ textOverlay (js "Smith") 2025 = Normal text
         /\ url = join (js "/")
                    [js "https://res.cloudinary.com/" ++ js "demo"
                       ++ js "/image/upload";
                     baseTransform;
                     overlay s1 {| publicId := js "a/b" |};
                     overlay s2 {| publicId := js "c" |};
                     overlay s3 {| publicId := js "d/e/f" |};
                     overlay s4 {| publicId := js "g" |};
                     overlay s5 {| publicId := js "h" |};
                     whiteRibbon; text; backgroundId].
Proof.
  pose proof (url_assembly_order sampleWorld (js "demo")
                {| publicId := js "a/b" |} {| publicId := js "c" |}
                {| publicId := js "d/e/f" |} {| publicId := js "g" |}
                {| publicId := js "h" |} (js "Smith")
                ltac:(discriminate)) as [Hret Hform].
  destruct (Hret eq_refl) as [url Hurl].
  exists url. split; [exact Hurl|]. exact (Hform url Hurl).
Defined.

(** C5, as stated, fails: with the publicId x,fl_layer_apply the first
    photo overlay is
    l_x,fl_layer_apply/c_fill,w_473,h_680/r_25,bo_8px_solid_rgb:FFD700/fl_layer_apply,g_north_west,x_50,y_50
    and holds the token [fl_layer_apply] twice. *)
Lemma one_flag_token_per_overlay_fails :
  ~ (forall photos : list Photo,
        List.length photos = 5%nat ->
        exists overlays,
          photoOverlays photos = Normal overlays
          /\ Forall (fun segment =>
                       List.length
                         (filter (strictEquals (js "fl_layer_apply"))
                            (tokens segment)) = 1%nat) overlays).
Proof.
  intros H. destruct (H commaPhotos eq_refl) as [overlays [Hov Hall]].
  vm_compute in Hov. apply Normal_eq in Hov. subst overlays.
  inversion Hall as [|first rest Hfirst _]. vm_compute in Hfirst.
  discriminate.
Qed.

(** C5, amended: for a non-empty cloud name and five photos the builder
    makes five photo overlay segments and puts them in the URL; the
    segment of photo [i] in slot [i] splits at [/] into the source
    [l_<publicId with every / turned into :>], the crop
    [c_fill,w_<slot width>,h_<slot height>], the decoration
    [r_25,bo_8px_solid_rgb:FFD700] and one layer-apply component, so each
    photo overlay holds exactly one component led by [fl_layer_apply] and
    the five hold five; an overlay whose publicId holds no comma holds
    exactly one [fl_layer_apply] token, and the five overlays hold five
    such tokens when no publicId holds a comma; for the photos a/b, c,
    d/e/f, g, h the first source reads [l_a:b], and among all tokens of
    the URL [fl_layer_apply] stands five times in the photo overlays
    (seven times with the ribbon and the text). *)
Theorem photo_overlay_encoding :
  (forall (w : World) (cloudName : jsstring) (photos : list Photo)
          (familyName : jsstring),
      cloudName <> [] -> List.length photos = 5%nat ->
      exists overlays,
        photoOverlays photos = Normal overlays
        /\ List.length overlays = 5%nat
        /\ (forall url,
              returned w cloudName photos familyName = Normal url ->
              exists text,
                url = baseUrl cloudName ++ js "/"
                      ++ join (js "/") (segments overlays text))
        /\ (forall i photo position,
              nth_error photos i = Some photo ->
              nth_error photoPositions i = Some position ->
              exists segment,
                nth_error overlays i = Some segment
                /\ split solidus segment
                   = [js "l_" ++ replaceSlashes (publicId photo);
                      js "c_fill,w_" ++ numberToString (width position)
                        ++ js ",h_" ++ numberToString (height position);
                      js "r_25,bo_8px_solid_rgb:FFD700";
                      applyComponent position]
                /\ isLayerApply (applyComponent position) = true
                /\ layerApplyCount segment = 1%nat
                /\ (Forall (fun c => c <> comma) (publicId photo) ->
                    List.length
                      (filter (strictEquals (js "fl_layer_apply"))
                         (tokens segment)) = 1%nat))
        /\ list_sum (map layerApplyCount overlays) = 5%nat
        /\ (Forall (fun photo => Forall (fun c => c <> comma) (publicId photo))
              photos ->
            List.length
              (filter (strictEquals (js "fl_layer_apply"))
                 (flat_map tokens overlays)) = 5%nat))
  /\ (exists first rest url,
        photoOverlays samplePhotos = Normal (first :: rest)
        /\ hd [] (split solidus first) = js "l_a:b"
        /\ List.length
             (filter (strictEquals (js "fl_layer_apply"))
                (flat_map tokens (first :: rest))) = 5%nat
        /\ returned sampleWorld (js "demo") samplePhotos (js "Smith")
           = Normal url
        /\ List.length
             (filter (strictEquals (js "fl_layer_apply")) (tokens url))
           = 7%nat).
Proof.
  split.
  - intros w cloudName photos familyName Hc Hlen.
    exists (map pairOverlay (combine photoPositions photos)).
    split; [now apply photoOverlays_five|].
    split; [now apply zip_length|].
    split; [|split; [|split]].
    + intros url Hret.
      destruct (returned_segments _ _ _ _ _ Hc Hlen Hret) as [text [_ ->]].
      exists text. reflexivity.
    + intros i photo position Hphoto Hpos.
      exists (overlay position photo).
      split; [now apply nth_error_zip|].
      pose proof (nth_error_In _ _ Hpos) as Hin.
      destruct (overlay_components position photo Hin) as [Hsplit Hcount].
      split; [exact Hsplit|]. split; [|split; [exact Hcount|]].
      * destruct (applyComponent_tokens position Hin) as [_ Htok].
        unfold isLayerApply. now rewrite Htok.
      * now apply overlay_flag_tokens.
    + rewrite <- (zip_length photos Hlen), <- (length_map layerApplyCount).
      apply list_sum_ones. rewrite Forall_map.
      apply Forall_forall. intros segment Hin.
      apply in_map_iff in Hin. destruct Hin as [[position photo] [<- Hin]].
      apply in_combine_l in Hin.
      exact (proj2 (overlay_components position photo Hin)).
    + intros Hfree. rewrite overlays_flag_tokens.
      * rewrite length_combine, Hlen. reflexivity.
      * intros [position photo] Hsp. cbn [fst snd]. split.
        -- now apply in_combine_l in Hsp.
        -- apply in_combine_r in Hsp.
           rewrite Forall_forall in Hfree. now apply Hfree.
  - do 3 eexists. split; [vm_compute; reflexivity|].
    split; [vm_compute; reflexivity|].
    split; [vm_compute; reflexivity|].
    split; vm_compute; reflexivity.
Qed.

Lemma photo_overlay_encoding_witness :
  exists overlays segment,
    photoOverlays samplePhotos = Normal overlays
    /\ List.length overlays = 5%nat
    /\ nth_error overlays 2 = Some segment
    /\ hd [] (split solidus segment) = js "l_d:e:f"
    /\ layerApplyCount segment = 1%nat
    /\ List.length
         (filter (strictEquals (js "fl_layer_apply")) (tokens segment))
       = 1%nat.
Proof.
  destruct (proj1 photo_overlay_encoding sampleWorld (js "demo") samplePhotos
              (js "Smith") ltac:(discriminate) eq_refl)
    as [overlays [H1 [H2 [_ [H4 _]]]]].
  destruct (H4 2%nat {| publicId := js "d/e/f" |} _ eq_refl eq_refl)
    as [segment [Hn [Hs [_ [Hc Ht]]]]].
  exists overlays, segment.
  split; [exact H1|]. split; [exact H2|]. split; [exact Hn|].
  split; [now rewrite Hs|]. split; [exact Hc|].
  apply Ht. repeat (constructor; [discriminate|]). constructor.
Defined.

(** C6: the three columns share the width floor((1600 - 2*50 - 2*40)/3);
    row 1 is floor(availableHeight*2/3) high and row 2 takes the rest of
    availableHeight = (900 - 120) - 2*50 - 40; row 1 + 40 + row 2 is the
    usable height less the two margins, which is the height of column 1;
    the two cells of column 2 and the two cells of column 3 each add up to
    availableHeight, column 3 holding the two heights in reverse order. *)
Theorem slot_sizes :
  map width photoPositions = repeat ((1600 - 2 * 50 - 2 * 40) / 3) 5
  /\ availableHeight = (900 - 120) - 2 * 50 - 40
  /\ row1Height = availableHeight * 2 / 3
  /\ row2Height = availableHeight - row1Height
  /\ map height photoPositions
     = [row1Height + 40 + row2Height;
        row1Height; row2Height;
        row2Height; row1Height]
  /\ row1Height + 40 + row2Height = usableHeight - 2 * margin
  /\ row1Height + row2Height = availableHeight
  /\ row2Height + row1Height = availableHeight.
Proof.
  pose proof (rows_fill_available canvasHeight textSpace margin gap) as Hrows.
  fold row1Height row2Height availableHeight in Hrows.
  split; [reflexivity|]. split; [reflexivity|]. split; [reflexivity|].
  split; [reflexivity|].
  split; [exact (slots_heights canvasWidth canvasHeight textSpace margin gap)|].
  split; [exact (column1_spans_rows canvasHeight textSpace margin gap)|].
  split; [exact Hrows|]. rewrite Z.add_comm. exact Hrows.
Qed.

(** C7: for a non-empty cloud name and five photos, every returned URL
    ends with the ribbon segment, the text segment and the background; the
    ribbon is the white-pixel overlay, filled to the canvas width 1600 and
    the height 100, at opacity 70, applied with south gravity and offset
    y_20; the text segment is applied with the same gravity and offset. *)
Theorem ribbon_and_caption_placement
    (w : World) (cloudName : jsstring) (photos : list Photo)
    (familyName : jsstring) :
  cloudName <> [] -> List.length photos = 5%nat ->
  (isWellFormed familyName = true ->
   exists url, returned w cloudName photos familyName = Normal url)
  /\ (forall url,
        returned w cloudName photos familyName = Normal url ->
        exists front encodedText,
          encodeURIComponent (textContent familyName (clockYear w))
          = Normal encodedText
          /\ url = front
                   ++ js "/" ++ whiteRibbon
                   ++ js "/" ++ (js "l_text:Pacifico_70:" ++ encodedText
                                 ++ js ",co_rgb:000000"
                                 ++ js "/fl_layer_apply,g_south,y_20")
                   ++ js "/" ++ backgroundId)
  /\ whiteRibbon
     = js "l_holiday-assets:white-pixel/c_fill,w_1600,h_100/o_70/fl_layer_apply,g_south,y_20"
  /\ split solidus whiteRibbon
     = [js "l_holiday-assets:white-pixel";
        js "c_fill,w_" ++ numberToString canvasWidth ++ js ",h_100";
        js "o_70";
        js "fl_layer_apply,g_south,y_20"].
Proof.
  intros Hc Hlen. split; [now apply returned_wellFormed|].
  split; [|split; vm_compute; reflexivity].
  intros url Hret.
  destruct (returned_segments _ _ _ _ _ Hc Hlen Hret) as [text [Ht ->]].
  destruct (textOverlay_inv _ _ _ Ht) as [encodedText [He ->]].
  exists (front cloudName photos), encodedText.
  split; [exact He|]. apply assembled_tail.
Qed.

Lemma ribbon_and_caption_placement_witness :
  exists url,
    returned sampleWorld (js "demo") samplePhotos (js "Smith") = Normal url
    /\ exists front encodedText,
         encodeURIComponent (textContent (js "Smith") 2025) = Normal encodedText
         /\ url = front
                  ++ js "/" ++ whiteRibbon
                  ++ js "/" ++ (js "l_text:Pacifico_70:" ++ encodedText
                                ++ js ",co_rgb:000000"
                                ++ js "/fl_layer_apply,g_south,y_20")
                  ++ js "/" ++ backgroundId.
Proof.
  pose proof (ribbon_and_caption_placement sampleWorld (js "demo")
                samplePhotos (js "Smith") ltac:(discriminate) eq_refl)
    as [Hret [Hform _]].
  destruct (Hret eq_refl) as [url Hurl].
  exists url. split; [exact Hurl|]. exact (Hform url Hurl).
Defined.

(** C8: two calls on the same cloud name, photos and family name, made
    while the clock shows the same year, complete with the same value,
    whatever else differs between the two runs. *)
Theorem same_year_same_result
    (w1 w2 : World) (cloudName : jsstring) (photos : list Photo)
    (familyName : jsstring) :
  clockYear w1 = clockYear w2 ->
  returned w1 cloudName photos familyName
  = returned w2 cloudName photos familyName.
Proof.
  intros Hyear.
  destruct (list_eq_dec N.eq_dec cloudName []) as [Hc|Hc].
  - rewrite !returned_guard by now left. reflexivity.
  - destruct (Nat.eq_dec (List.length photos) 5) as [Hlen|Hlen].
    + rewrite !returned_valid by assumption. now rewrite Hyear.
    + rewrite !returned_guard by now right. reflexivity.
Qed.

Lemma same_year_same_result_witness :
  returned {| clockYear := 2025; windowDefined := true |}
    (js "demo") samplePhotos (js "Smith")
  = returned {| clockYear := 2025; windowDefined := false |}
      (js "demo") samplePhotos (js "Smith").
Proof.
  apply same_year_same_result. reflexivity.
Defined.

(** C9: the layout has exactly five slots, each with a positive width
    and height; every slot lies inside the margin-inset usable area
    (x >= 50, y >= 50, x + width <= 1600 - 50,
    y + height <= (900 - 120) - 50), and any two slots are kept apart by a
    clear 40-pixel band, across columns or between the stacked cells of
    one column, so no two overlap. *)
Theorem slots_inside_and_disjoint :
  List.length photoPositions = 5%nat
  /\ Forall (fun p => 0 < width p /\ 0 < height p) photoPositions
  /\ Forall (fun p => 50 <= x p /\ 50 <= y p
                      /\ x p + width p <= 1600 - 50
                      /\ y p + height p <= (900 - 120) - 50) photoPositions
  /\ ForallOrdPairs (fun a b => separatedBy 40 a b /\ ~ overlaps a b)
       photoPositions.
Proof.
  split; [reflexivity|]. split; [|split].
  - repeat constructor.
  - apply (slots_inside canvasWidth canvasHeight textSpace margin gap);
      vm_compute; discriminate.
  - eapply ForallOrdPairs_impl;
      [|apply (slots_separated canvasWidth canvasHeight textSpace margin gap)].
    intros a b Hsep. split; [exact Hsep|].
    apply (separated_disjoint gap); [unfold gap; lia|exact Hsep].
Qed.

(** C10: for a non-empty cloud name and five photos, the layer-apply
    component of each of the five photo overlays in the URL is
    [fl_layer_apply,g_north_west,x_<x>,y_<y>] with the x offset of its
    slot: every slot has an x offset of at least the margin 50, so the
    builder never leaves the x token out. *)
Theorem photo_overlays_carry_x_offset
    (w : World) (cloudName : jsstring) (photos : list Photo)
    (familyName : jsstring) :
  cloudName <> [] -> List.length photos = 5%nat ->
  exists overlays,
    photoOverlays photos = Normal overlays
    /\ List.length overlays = 5%nat
    /\ (forall url,
          returned w cloudName photos familyName = Normal url ->
          exists text,
            url = baseUrl cloudName ++ js "/"
                  ++ join (js "/") (segments overlays text))
    /\ Forall (fun position => 0 < margin <= x position) photoPositions
    /\ (forall i segment,
          nth_error overlays i = Some segment ->
          exists position source crop decoration apply,
            nth_error photoPositions i = Some position
            /\ split solidus segment = [source; crop; decoration; apply]
            /\ split comma apply
               = [js "fl_layer_apply"; js "g_north_west";
                  js "x_" ++ numberToString (x position);
                  js "y_" ++ numberToString (y position)]).
Proof.
  intros Hc Hlen.
  exists (map pairOverlay (combine photoPositions photos)).
  split; [now apply photoOverlays_five|].
  split; [now apply zip_length|].
  split; [|split].
  - intros url Hret.
    destruct (returned_segments _ _ _ _ _ Hc Hlen Hret) as [text [_ ->]].
    exists text. reflexivity.
  - repeat constructor; vm_compute; discriminate.
  - intros i segment Hseg.
    rewrite nth_error_map in Hseg.
    destruct (nth_error (combine photoPositions photos) i)
      as [[position photo]|] eqn:Hzip; [|discriminate].
    injection Hseg as <-.
    assert (Hpos : nth_error photoPositions i = Some position).
    { revert Hzip. clear. generalize photoPositions. revert photos.
      induction i as [|i IH]; intros [|p photos] [|s slots] H;
        try discriminate.
      - simpl in H. now injection H as -> _.
      - simpl in H |- *. eapply IH. exact H. }
    pose proof (nth_error_In _ _ Hpos) as Hin.
    destruct (overlay_components position photo Hin) as [Hsplit _].
    destruct (applyComponent_tokens position Hin) as [_ Htok].
    exists position. do 4 eexists.
    split; [exact Hpos|]. split; [exact Hsplit|exact Htok].
Qed.

Lemma photo_overlays_carry_x_offset_witness :
  exists overlays,
    photoOverlays samplePhotos = Normal overlays
    /\ forall i segment,
         nth_error overlays i = Some segment ->
         exists position source crop decoration apply,
           nth_error photoPositions i = Some position
           /\ split solidus segment = [source; crop; decoration; apply]
           /\ split comma apply
              = [js "fl_layer_apply"; js "g_north_west";
                 js "x_" ++ numberToString (x position);
                 js "y_" ++ numberToString (y position)].
Proof.
  destruct (photo_overlays_carry_x_offset sampleWorld (js "demo") samplePhotos
              (js "Smith") ltac:(discriminate) eq_refl)
    as [overlays [H1 [_ [_ [_ H5]]]]].
  exists overlays. split; assumption.
Defined.

(** * Further properties *)

(** ** What [encodeURIComponent] writes *)

Section Alphabet.

Lemma hexDigit_unescaped (d : N) :
  (d < 16)%N -> uriUnescaped (hexDigit d) = true.
Proof.
  intros Hd.
  assert (H : exists n, (n < 16)%nat /\ d = N.of_nat n).
  { exists (N.to_nat d). split; lia. }
  destruct H as [n [Hn ->]].
  do 16 (destruct n as [|n]; [reflexivity|]). lia.
Qed.

Lemma percentOctet_safe (o : N) :
  (o < 256)%N -> Forall (fun c => isUriSafe c = true) (percentOctet o).
Proof.
  intros Ho. unfold percentOctet, isUriSafe.
  constructor; [reflexivity|].
  constructor.
  - rewrite hexDigit_unescaped; [reflexivity|].
    rewrite N.shiftr_div_pow2. apply N.Div0.div_lt_upper_bound.
    change (2 ^ 4 * 16)%N with 256%N. exact Ho.
  - constructor; [|constructor].
    rewrite hexDigit_unescaped; [reflexivity|].
    pose proof (N.land_le_r o 15). lia.
Qed.

Lemma lor_below_256 (a b : N) :
  (a < 256)%N -> (b < 256)%N -> (N.lor a b < 256)%N.
Proof.
  intros Ha Hb.
  destruct (N.eq_dec (N.lor a b) 0) as [E|E]; [rewrite E; lia|].
  change 256%N with (2 ^ 8)%N.
  apply N.log2_lt_pow2; [lia|].
  rewrite N.log2_lor. apply N.max_lub_lt.
  - destruct (N.eq_dec a 0) as [->|Na]; [simpl; lia|].
    apply N.log2_lt_pow2; [lia|exact Ha].
  - destruct (N.eq_dec b 0) as [->|Nb]; [simpl; lia|].
    apply N.log2_lt_pow2; [lia|exact Hb].
Qed.

Lemma continuation_octet (v : N) :
  (N.lor 0x80 (N.land v 0x3F) < 256)%N.
Proof.
  apply lor_below_256; [lia|].
  pose proof (N.land_le_r v 0x3F). lia.
Qed.

Lemma leading_octet (mark v : N) (n bound : N) :
  (mark < 256)%N -> (v < 2 ^ n * bound)%N -> (bound <= 256)%N ->
  (N.lor mark (N.shiftr v n) < 256)%N.
Proof.
  intros Hm Hv Hb. apply lor_below_256; [exact Hm|].
  rewrite N.shiftr_div_pow2.
  assert (v / 2 ^ n < bound)%N by now apply N.Div0.div_lt_upper_bound.
  lia.
Qed.

Lemma utf8Octets_bytes (cp : N) :
  (cp < 0x110000)%N -> Forall (fun o => (o < 256)%N) (utf8Octets cp).
Proof.
  intros Hcp. unfold utf8Octets.
  destruct (N.ltb_spec cp 0x80).
  { repeat constructor. lia. }
  destruct (N.ltb_spec cp 0x800).
  { repeat constructor; [|apply continuation_octet].
    apply (leading_octet 0xC0 cp 6 32); lia. }
  destruct (N.ltb_spec cp 0x10000).
  { repeat constructor; try apply continuation_octet.
    apply (leading_octet 0xE0 cp 12 16); lia. }
  repeat constructor; try apply continuation_octet.
  apply (leading_octet 0xF0 cp 18 16); lia.
Qed.

Lemma percentEncode_safe (cp : N) :
  (cp < 0x110000)%N -> Forall (fun c => isUriSafe c = true) (percentEncode cp).
Proof.
  intros Hcp. unfold percentEncode.
  pose proof (utf8Octets_bytes cp Hcp) as Hoct.
  induction Hoct as [|o octets Ho _ IH]; [constructor|].
  cbn [flat_map].
  apply Forall_app. split; [now apply percentOctet_safe|exact IH].
Qed.

Lemma surrogate_pair_range (lead trail : codeunit) :
  isLeadingSurrogate lead = true -> isTrailingSurrogate trail = true ->
  (utf16SurrogatePairToCodePoint lead trail < 0x110000)%N.
Proof.
  unfold isLeadingSurrogate, isTrailingSurrogate, inRange,
    utf16SurrogatePairToCodePoint.
  rewrite !andb_true_iff, !N.leb_le. lia.
Qed.

Lemma encode_safe (s : jsstring) :
  validUnits s ->
  forall r, encodeURIComponent s = Normal r ->
            Forall (fun c => isUriSafe c = true) r.
Proof.
  unfold validUnits.
  induction s as [|c|c d s IHs IHd] using jsstring_pair_ind; intros Hv r Hr.
  - injection Hr as <-. constructor.
  - inversion Hv as [|? ? Hc _]; subst.
    destruct (classify c) as [Ht|Hl Ht|Hl Ht].
    + rewrite encode_trailing in Hr by assumption. discriminate.
    + rewrite encode_leading in Hr by assumption. discriminate.
    + rewrite encode_scalar_step in Hr by assumption.
      simpl in Hr. injection Hr as <-. rewrite app_nil_r.
      unfold scalarPiece. destruct (uriUnescaped c) eqn:Hu.
      * repeat constructor. unfold isUriSafe. now rewrite Hu.
      * apply percentEncode_safe. lia.
  - inversion Hv as [|? ? Hc Hv']; subst.
    inversion Hv' as [|? ? Hd Hv'']; subst.
    destruct (classify c) as [Ht|Hl Ht|Hl Ht].
    + rewrite encode_trailing in Hr by assumption. discriminate.
    + rewrite encode_leading in Hr by assumption.
      destruct (isTrailingSurrogate d) eqn:Htd; [|discriminate].
      destruct (encodeURIComponent s) as [rs|e]; [|discriminate].
      simpl in Hr. injection Hr as <-.
      apply Forall_app. split.
      * apply percentEncode_safe. now apply surrogate_pair_range.
      * now apply IHs.
    + rewrite encode_scalar_step in Hr by assumption.
      destruct (encodeURIComponent (d :: s)) as [rs|e]; [|discriminate].
      simpl in Hr. injection Hr as <-.
      apply Forall_app. split.
      * unfold scalarPiece. destruct (uriUnescaped c) eqn:Hu.
        -- repeat constructor. unfold isUriSafe. now rewrite Hu.
        -- apply percentEncode_safe. lia.
      * now apply IHd.
Qed.

Lemma safe_not_separator (c : codeunit) :
  isUriSafe c = true -> c <> solidus /\ c <> comma.
Proof.
  intros H. split; intros ->; discriminate.
Qed.

End Alphabet.


(** ** More on splitting *)

Section SplitLaws.

Lemma free_by_test (sep : codeunit) (s : jsstring) :
  forallb (fun c => negb (N.eqb c sep)) s = true ->
  Forall (fun c => c <> sep) s.
Proof.
  intros H. apply Forall_forall. intros c Hin.
  rewrite forallb_forall in H. specialize (H c Hin).
  apply negb_true_iff in H. now apply N.eqb_neq.
Qed.

Lemma safe_free (sep : codeunit) (s : jsstring) :
  isUriSafe sep = false ->
  Forall (fun c => isUriSafe c = true) s -> Forall (fun c => c <> sep) s.
Proof.
  intros Hsep. apply Forall_impl. intros c Hc ->. congruence.
Qed.

Lemma split_nonempty (sep : codeunit) (s : jsstring) : split sep s <> [].
Proof.
  destruct s as [|c s]; simpl; [discriminate|].
  destruct (N.eqb c sep); [discriminate|].
  destruct (split sep s); discriminate.
Qed.

(** Splitting on both sides of a separator. *)
Lemma split_around (sep : codeunit) (a b : jsstring) :
  split sep (a ++ sep :: b) = split sep a ++ split sep b.
Proof.
  induction a as [|c a IH]; simpl.
  - now rewrite N.eqb_refl.
  - destruct (N.eqb c sep); [now rewrite IH|].
    rewrite IH.
    pose proof (split_nonempty sep a) as Hne.
    destruct (split sep a) as [|h t]; [congruence|reflexivity].
Qed.

Lemma split_join (sep : codeunit) (segs : list jsstring) :
  segs <> [] ->
  split sep (join [sep] segs) = flat_map (split sep) segs.
Proof.
  induction segs as [|a segs IH]; [congruence|]. intros _.
  destruct segs as [|b segs].
  - simpl. now rewrite app_nil_r.
  - change (join [sep] (a :: b :: segs))
      with (a ++ sep :: join [sep] (b :: segs)).
    rewrite split_around, IH by discriminate. reflexivity.
Qed.

End SplitLaws.

(** ** The family name cannot reshape the URL *)

Section CaptionShape.

Lemma textContent_valid (familyName : jsstring) (currentYear : Z) :
  validUnits familyName -> validUnits (textContent familyName currentYear).
Proof.
  unfold validUnits, textContent. intros Hv.
  assert (Hjs : forall s, Forall (fun c => (c < 65536)%N) (js s)).
  { intros s. eapply Forall_impl; [|apply js_units_ascii].
    intros c Hc. simpl in Hc. lia. }
  apply Forall_app; split; [exact Hv|].
  apply Forall_app; split; [apply Hjs|].
  apply Forall_app; split.
  { unfold captionSeparator. repeat (constructor; [reflexivity|]). constructor. }
  apply Forall_app; split; [apply Hjs|].
  unfold numberToString. apply Hjs.
Qed.

(** X1: whatever the family name, the text overlay the builder makes has
    exactly two components, and the first has exactly two tokens: every
    solidus and comma of the name is percent-encoded. *)
Theorem caption_adds_no_component
    (familyName : jsstring) (currentYear : Z) (text : jsstring) :
  validUnits familyName ->
  textOverlay familyName currentYear = Normal text ->
  exists encodedText,
    encodeURIComponent (textContent familyName currentYear) = Normal encodedText
    /\ Forall (fun c => isUriSafe c = true) encodedText
    /\ split solidus text
       = [js "l_text:Pacifico_70:" ++ encodedText ++ js ",co_rgb:000000";
          js "fl_layer_apply,g_south,y_20"]
    /\ split comma (js "l_text:Pacifico_70:" ++ encodedText ++ js ",co_rgb:000000")
       = [js "l_text:Pacifico_70:" ++ encodedText; js "co_rgb:000000"].
Proof.
  intros Hv Ht.
  destruct (textOverlay_inv _ _ _ Ht) as [encodedText [He ->]].
  pose proof (encode_safe _ (textContent_valid _ currentYear Hv) _ He) as Hsafe.
  exists encodedText. split; [exact He|]. split; [exact Hsafe|]. split.
  - replace (js "l_text:Pacifico_70:" ++ encodedText
             ++ js ",co_rgb:000000/fl_layer_apply,g_south,y_20")
      with ((js "l_text:Pacifico_70:" ++ encodedText ++ js ",co_rgb:000000")
            ++ solidus :: js "fl_layer_apply,g_south,y_20")
      by (now rewrite <- !app_assoc).
    rewrite split_app; [reflexivity|].
    apply Forall_app; split; [now apply free_by_test|].
    apply Forall_app; split; [|now apply free_by_test].
    now apply safe_free.
  - replace (js "l_text:Pacifico_70:" ++ encodedText ++ js ",co_rgb:000000")
      with ((js "l_text:Pacifico_70:" ++ encodedText)
            ++ comma :: js "co_rgb:000000")
      by (now rewrite <- !app_assoc).
    rewrite split_app; [reflexivity|].
    apply Forall_app; split; [now apply free_by_test|].
    now apply safe_free.
Qed.

Lemma caption_adds_no_component_witness :
  let text :=
    js "l_text:Pacifico_70:a%2Fb%2Cc%20%C3%A2%E2%82%AC%E2%80%9C%20Holiday%202025,co_rgb:000000/fl_layer_apply,g_south,y_20" in
  exists encodedText,
    encodeURIComponent (textContent (js "a/b,c") 2025) = Normal encodedText
    /\ Forall (fun c => isUriSafe c = true) encodedText
    /\ split solidus text
       = [js "l_text:Pacifico_70:" ++ encodedText ++ js ",co_rgb:000000";
          js "fl_layer_apply,g_south,y_20"]
    /\ split comma (js "l_text:Pacifico_70:" ++ encodedText ++ js ",co_rgb:000000")
       = [js "l_text:Pacifico_70:" ++ encodedText; js "co_rgb:000000"].
Proof.
  intros text. apply (caption_adds_no_component (js "a/b,c") 2025 text).
  - repeat (constructor; [reflexivity|]). constructor.
  - vm_compute. reflexivity.
Defined.

End CaptionShape.


(** ** The components of the URL *)

Section UrlShape.

Lemma overlays_components (zs : list (Position * Photo)) :
  (forall sp, In sp zs -> In (fst sp) photoPositions) ->
  List.length (flat_map (split solidus) (map pairOverlay zs))
  = (4 * List.length zs)%nat
  /\ List.length
       (filter isLayerApply (flat_map (split solidus) (map pairOverlay zs)))
     = List.length zs.
Proof.
  induction zs as [|[position photo] zs IH]; intros Hin; [split; reflexivity|].
  destruct IH as [IHlen IHcount]; [intros sp Hsp; apply Hin; now right|].
  assert (Hpos : In position photoPositions) by (apply (Hin (position, photo)); now left).
  destruct (overlay_components position photo Hpos) as [Hsplit Hone].
  unfold layerApplyCount in Hone.
  cbn [map flat_map]. unfold pairOverlay at 1 3. cbn [fst snd].
  rewrite filter_app, !length_app, Hone, IHcount, IHlen, Hsplit.
  cbn [List.length]. split; lia.
Qed.

Lemma baseUrl_components (cloudName rest : jsstring) :
  Forall (fun c => c <> solidus) cloudName ->
  split solidus (baseUrl cloudName ++ js "/" ++ rest)
  = [js "https:"; []; js "res.cloudinary.com"; cloudName; js "image"; js "upload"]
    ++ split solidus rest.
Proof.
  intros Hfree. unfold baseUrl.
  replace ((js "https://res.cloudinary.com/" ++ cloudName ++ js "/image/upload")
           ++ js "/" ++ rest)
    with (js "https://res.cloudinary.com"
          ++ solidus :: (cloudName
          ++ solidus :: (js "image/upload" ++ solidus :: rest)))
    by (rewrite <- !app_assoc; reflexivity).
  rewrite !split_around, (split_free _ _ Hfree). reflexivity.
Qed.

(** X2: for a cloud name without a solidus, five photos and any family
    name, the returned URL splits at [/] into the six components of the
    base, the base transform, 26 components of overlays and the two of the
    background; exactly seven of the overlay components are layer-apply
    components.  No publicId and no family name changes these counts. *)
Theorem url_component_counts
    (w : World) (cloudName : jsstring) (photos : list Photo)
    (familyName url : jsstring) :
  cloudName <> [] -> Forall (fun c => c <> solidus) cloudName ->
  List.length photos = 5%nat -> validUnits familyName ->
  returned w cloudName photos familyName = Normal url ->
  exists overlayComponents,
    split solidus url
    = [js "https:"; []; js "res.cloudinary.com"; cloudName;
       js "image"; js "upload"; baseTransform]
      ++ overlayComponents ++ [js "holiday-assets"; js "collage-bg"]
    /\ List.length overlayComponents = 26%nat
    /\ List.length (filter isLayerApply overlayComponents) = 7%nat
    /\ List.length (split solidus url) = 35%nat.
Proof.
  intros Hc Hfree Hlen Hv Hret.
  destruct (returned_segments _ _ _ _ _ Hc Hlen Hret) as [text [Ht ->]].
  destruct (caption_adds_no_component _ _ _ Hv Ht)
    as [encodedText [_ [_ [Htext _]]]].
  destruct (overlays_components (combine photoPositions photos))
    as [Hovl Hovc].
  { intros sp Hsp. destruct sp as [position photo].
    now apply in_combine_l in Hsp. }
  rewrite length_combine, Hlen in Hovl, Hovc.
  change (Nat.min (List.length photoPositions) 5) with 5%nat in Hovl, Hovc.
  set (overlays := map pairOverlay (combine photoPositions photos)) in *.
  exists (flat_map (split solidus) overlays
          ++ split solidus whiteRibbon ++ split solidus text).
  assert (Hshape :
    split solidus (assembled cloudName photos text)
    = [js "https:"; []; js "res.cloudinary.com"; cloudName;
       js "image"; js "upload"; baseTransform]
      ++ (flat_map (split solidus) overlays
          ++ split solidus whiteRibbon ++ split solidus text)
      ++ [js "holiday-assets"; js "collage-bg"]).
  { unfold assembled. fold overlays.
    rewrite (baseUrl_components _ _ Hfree).
    change (js "/") with [solidus].
    rewrite split_join by (unfold segments; simpl; discriminate).
    unfold segments. rewrite !flat_map_app. cbn [flat_map].
    rewrite app_nil_r, <- !app_assoc. reflexivity. }
  assert (Hmid :
    List.length (flat_map (split solidus) overlays
                 ++ split solidus whiteRibbon ++ split solidus text) = 26%nat).
  { rewrite !length_app, Hovl, Htext. reflexivity. }
  split; [exact Hshape|]. split; [exact Hmid|]. split.
  - rewrite !filter_app, !length_app, Hovc, Htext.
    cbn [filter].
    replace (js "l_text:Pacifico_70:" ++ encodedText ++ js ",co_rgb:000000")
      with (js "l_" ++ (js "text:Pacifico_70:" ++ encodedText ++ js ",co_rgb:000000"))
      by reflexivity.
    rewrite source_not_layerApply. reflexivity.
  - rewrite Hshape, length_app,
      (length_app _ [js "holiday-assets"; js "collage-bg"]), Hmid.
    reflexivity.
Qed.

Lemma url_component_counts_witness :
  exists url overlayComponents,
    returned sampleWorld (js "demo") samplePhotos (js "Smith, Jones / Lee")
    = Normal url
    /\ split solidus url
       = [js "https:"; []; js "res.cloudinary.com"; js "demo";
          js "image"; js "upload"; baseTransform]
         ++ overlayComponents ++ [js "holiday-assets"; js "collage-bg"]
    /\ List.length overlayComponents = 26%nat
    /\ List.length (filter isLayerApply overlayComponents) = 7%nat
    /\ List.length (split solidus url) = 35%nat.
Proof.
  destruct (returned_wellFormed sampleWorld (js "demo") samplePhotos
              (js "Smith, Jones / Lee") ltac:(discriminate) eq_refl eq_refl)
    as [url Hurl].
  exists url.
  destruct (url_component_counts sampleWorld (js "demo") samplePhotos
              (js "Smith, Jones / Lee") url) as [components H].
  - discriminate.
  - now apply free_by_test.
  - reflexivity.
  - unfold validUnits. apply Forall_forall. intros c Hin.
    pose proof (js_units_ascii "Smith, Jones / Lee") as Hb.
    rewrite Forall_forall in Hb. specialize (Hb c Hin). simpl in Hb. lia.
  - exact Hurl.
  - exists components. split; [exact Hurl|exact H].
Defined.

End UrlShape.


(** ** The year can be read back from the URL *)

Section YearDependence.

Lemma js_inj (s t : string) : js s = js t -> s = t.
Proof.
  unfold js. revert t.
  induction s as [|a s IH]; intros [|b t] H; simpl in H; try discriminate.
  - reflexivity.
  - injection H as Hab Hst.
    rewrite <- (ascii_N_embedding a), <- (ascii_N_embedding b), Hab.
    f_equal. now apply IH.
Qed.

Lemma to_int_proper (z : Z) :
  Z.to_int z <> Decimal.Pos Decimal.Nil /\ Z.to_int z <> Decimal.Neg Decimal.Nil.
Proof.
  destruct z as [|p|p]; simpl; split; try discriminate;
    intros [= H]; now apply DecimalPos.Unsigned.to_uint_nonnil in H.
Qed.

Lemma numberToString_inj (a b : Z) :
  numberToString a = numberToString b -> a = b.
Proof.
  unfold numberToString. intros H. apply js_inj in H.
  apply DecimalZ.to_int_inj.
  destruct (to_int_proper a) as [Ha1 Ha2], (to_int_proper b) as [Hb1 Hb2].
  pose proof (NilZero.isi _ Ha1 Ha2) as Ia.
  pose proof (NilZero.isi _ Hb1 Hb2) as Ib.
  rewrite H in Ia. congruence.
Qed.

(** X3: with a non-empty cloud name and five photos, two calls on the same
    arguments that return the same URL were made in the same clock year:
    the caption carries the year, so the URL changes when the year does. *)
Theorem same_result_same_year
    (w1 w2 : World) (cloudName : jsstring) (photos : list Photo)
    (familyName url : jsstring) :
  cloudName <> [] -> List.length photos = 5%nat ->
  returned w1 cloudName photos familyName = Normal url ->
  returned w2 cloudName photos familyName = Normal url ->
  clockYear w1 = clockYear w2.
Proof.
  intros Hc Hlen H1 H2.
  destruct (returned_segments _ _ _ _ _ Hc Hlen H1) as [text1 [Ht1 E1]].
  destruct (returned_segments _ _ _ _ _ Hc Hlen H2) as [text2 [Ht2 E2]].
  assert (Hw : isWellFormed familyName = true).
  { destruct (textOverlay_inv _ _ _ Ht1) as [enc [He _]].
    apply encode_normal_wellFormed in He.
    now rewrite textContent_wellFormed in He. }
  destruct (encode_wellFormed _ Hw) as [encodedName He].
  rewrite (textOverlay_encoded _ (clockYear w1) _ He) in Ht1.
  rewrite (textOverlay_encoded _ (clockYear w2) _ He) in Ht2.
  apply Normal_eq in Ht1, Ht2. subst text1 text2.
  rewrite E1, !assembled_tail in E2.
  do 4 apply app_inv_head in E2.
  apply app_inv_tail in E2.
  do 2 apply app_inv_head in E2.
  apply app_inv_tail in E2.
  unfold encodedCaptionTail in E2. apply app_inv_head in E2.
  now apply numberToString_inj.
Qed.

Lemma same_result_same_year_witness :
  clockYear sampleWorld
  = clockYear {| clockYear := 2025; windowDefined := false |}.
Proof.
  eapply (same_result_same_year sampleWorld
            {| clockYear := 2025; windowDefined := false |}
            (js "demo") samplePhotos (js "Smith")).
  - discriminate.
  - reflexivity.
  - vm_compute. reflexivity.
  - vm_compute. reflexivity.
Defined.

End YearDependence.


(** ** The layout arithmetic on any canvas *)

Section AnyCanvas.

Variables cw ch ts m g : Z.

(** X4: whatever the canvas size, text reserve, margin and gap, the
    layout arithmetic yields exactly five rectangles, and as long as the
    gap and the space left for the columns and for the rows are not
    negative, the five have non-negative sizes, lie inside the
    margin-inset usable area and are pairwise kept apart by the gap. *)
Theorem layout_sound_on_any_canvas :
  0 <= g ->
  0 <= Layout.availableWidth cw m g ->
  0 <= Layout.availableHeight ch ts m g ->
  List.length (Layout.photoPositions cw ch ts m g) = 5%nat
  /\ Forall (fun p => 0 <= width p /\ 0 <= height p)
       (Layout.photoPositions cw ch ts m g)
  /\ Forall (insideUsable cw (Layout.usableHeight ch ts) m)
       (Layout.photoPositions cw ch ts m g)
  /\ ForallOrdPairs (fun a b => separatedBy g a b /\ ~ overlaps a b)
       (Layout.photoPositions cw ch ts m g).
Proof.
  intros Hg Hw Hh. split; [reflexivity|]. split; [|split].
  - pose proof (columnWidth_nonneg cw m g Hw) as Hc.
    pose proof (row1_range ch ts m g Hh) as Hr.
    pose proof (rows_fill_available ch ts m g) as Hs.
    unfold Layout.photoPositions, Layout.col1Height, Layout.col2TopHeight,
      Layout.col2BottomHeight, Layout.col3TopHeight, Layout.col3BottomHeight.
    repeat constructor; simpl; lia.
  - now apply slots_inside.
  - eapply ForallOrdPairs_impl; [|apply slots_separated].
    intros a b Hsep. split; [exact Hsep|].
    now apply (separated_disjoint g).
Qed.

(** X5: on any canvas the three columns end at the same height, the
    usable height less the margin, and the third column ends short of the
    right margin by the remainder of the division of the available width
    by 3: the widths satisfy
    2*margin + 3*columnWidth + 2*gap = canvasWidth - availableWidth mod 3. *)
Theorem layout_edges :
  map (fun p => y p + height p) (Layout.photoPositions cw ch ts m g)
  = [Layout.usableHeight ch ts - m;
     m + Layout.row1Height ch ts m g;
     Layout.usableHeight ch ts - m;
     m + Layout.row2Height ch ts m g;
     Layout.usableHeight ch ts - m]
  /\ map (fun p => x p + width p) (skipn 3 (Layout.photoPositions cw ch ts m g))
     = [cw - m - Layout.availableWidth cw m g mod 3;
        cw - m - Layout.availableWidth cw m g mod 3]
  /\ 2 * m + 3 * Layout.columnWidth cw m g + 2 * g
     = cw - Layout.availableWidth cw m g mod 3
  /\ 0 <= Layout.availableWidth cw m g mod 3 < 3.
Proof.
  pose proof (rows_fill_available ch ts m g) as Hs.
  pose proof (Z.div_mod (Layout.availableWidth cw m g) 3 ltac:(lia)) as Hd.
  pose proof (Z.mod_pos_bound (Layout.availableWidth cw m g) 3 ltac:(lia)) as Hb.
  assert (Hc : Layout.columnWidth cw m g = Layout.availableWidth cw m g / 3)
    by reflexivity.
  unfold Layout.availableHeight in Hs.
  assert (Hw : Layout.availableWidth cw m g = cw - 2 * m - 2 * g) by reflexivity.
  split; [|split; [|split]].
  - unfold Layout.photoPositions, Layout.col1Height, Layout.col2TopHeight,
      Layout.col2BottomHeight, Layout.col3TopHeight, Layout.col3BottomHeight.
    cbn [map y height].
    repeat (apply f_equal2; [lia|]). reflexivity.
  - unfold Layout.photoPositions. cbn [skipn map x width].
    repeat (apply f_equal2; [lia|]). reflexivity.
  - lia.
  - exact Hb.
Qed.

End AnyCanvas.

Lemma layout_sound_on_any_canvas_witness :
  List.length (Layout.photoPositions 1200 800 100 30 20) = 5%nat
  /\ Forall (fun p => 0 <= width p /\ 0 <= height p)
       (Layout.photoPositions 1200 800 100 30 20)
  /\ Forall (insideUsable 1200 (Layout.usableHeight 800 100) 30)
       (Layout.photoPositions 1200 800 100 30 20)
  /\ ForallOrdPairs (fun a b => separatedBy 20 a b /\ ~ overlaps a b)
       (Layout.photoPositions 1200 800 100 30 20).
Proof.
  apply (layout_sound_on_any_canvas 1200 800 100 30 20);
    vm_compute; discriminate.
Defined.


(** ** The layout handlers of the application *)

Section LayoutHandlers.

Lemma stringEquals_eq (a b : jsstring) : App.stringEquals a b = true <-> a = b.
Proof.
  revert b. induction a as [|c a IH]; intros [|d b]; simpl;
    try (split; [discriminate|congruence]); [tauto|].
  rewrite andb_true_iff, N.eqb_eq, IH. split.
  - now intros [-> ->].
  - now intros [= -> ->].
Qed.

Lemma positionEqb_eq (a b : App.Position) :
  App.positionEqb a b = true <-> a = b.
Proof. destruct a, b; simpl; split; congruence. Qed.

Lemma get_set (layout : App.CollageLayout) (position q : App.Position)
    (value : option App.Photo) :
  App.get (App.set layout position value) q
  = if App.positionEqb q position then value else App.get layout q.
Proof. destruct position, q; reflexivity. Qed.

(** X6: an upload never moves or replaces a placed photo.  When a
    position is free the new photo goes to the first free one in the order
    position1 .. position5 and the layout holds one photo more; when the
    five are taken the layout is left as it is. *)
Theorem handleUpload_fills_first_free
    (info : App.UploadInfo) (s : App.State) :
  let before := App.collageLayout s in
  let after := App.collageLayout (App.handleUpload info s) in
  (forall position photo,
      App.get before position = Some photo ->
      App.get after position = Some photo)
  /\ (forall position,
        App.get before position = None ->
        (forall q, (positionIndex q < positionIndex position)%nat ->
                   App.get before q <> None) ->
        App.get after position = Some (photoOf info))
  /\ (forall position,
        App.get before position = None ->
        App.get after position <> None ->
        forall q, (positionIndex q < positionIndex position)%nat ->
                  App.get before q <> None)
  /\ placedCount after = Nat.min 5 (S (placedCount before)).
Proof.
  destruct s as [photos [c1 c2 c3 c4 c5] dragged from hovered uploading].
  cbn [App.collageLayout App.handleUpload].
  fold (photoOf info).
  split; [|split; [|split]].
  - intros position photo.
    destruct c1, c2, c3, c4, c5, position; cbn; congruence.
  - intros position Hfree Hfilled.
    destruct c1, c2, c3, c4, c5, position; cbn in *; try congruence;
      exfalso;
      first [ now apply (Hfilled App.Position1); [cbn; lia|]
            | now apply (Hfilled App.Position2); [cbn; lia|]
            | now apply (Hfilled App.Position3); [cbn; lia|]
            | now apply (Hfilled App.Position4); [cbn; lia|] ].
  - intros position Hfree Hnow q Hq.
    destruct c1, c2, c3, c4, c5, position; cbn in *; try congruence;
      destruct q; cbn in *; try lia; congruence.
  - destruct c1, c2, c3, c4, c5; reflexivity.
Qed.

(** The photo list under an upload: the photo is appended while fewer
    than five are held, and nothing changes otherwise. *)
Lemma handleUpload_limits_photos
    (info : App.UploadInfo) (s : App.State) :
  let after := App.photos (App.handleUpload info s) in
  (after = if Nat.ltb (List.length (App.photos s)) 5
           then App.photos s ++ [photoOf info]
           else App.photos s)
  /\ ((List.length (App.photos s) <= 5)%nat -> (List.length after <= 5)%nat).
Proof.
  cbn [App.photos App.handleUpload]. fold (photoOf info).
  unfold App.addPhoto.
  destruct (Nat.leb_spec 5 (List.length (App.photos s))) as [Hfull|Hroom];
    destruct (Nat.ltb_spec (List.length (App.photos s)) 5); try lia.
  - split; [reflexivity|tauto].
  - split; [reflexivity|]. intros _. rewrite length_app. simpl. lia.
Qed.

End LayoutHandlers.


(** ** Dropping and removing *)

Section DropAndRemove.

(** Permutations of short explicit lists. *)
Ltac perm_lists :=
  cbn [app];
  lazymatch goal with
  | |- Permutation [] [] => apply perm_nil
  | |- Permutation (?a :: ?l) (?a :: ?r) => apply perm_skip; perm_lists
  | |- Permutation (?a :: ?l) (?x :: ?a :: ?t) =>
      apply (@Permutation_cons_app _ l [x] t a); perm_lists
  | |- Permutation (?a :: ?l) (?x :: ?y :: ?a :: ?t) =>
      apply (@Permutation_cons_app _ l [x; y] t a); perm_lists
  | |- Permutation (?a :: ?l) (?x :: ?y :: ?z :: ?a :: ?t) =>
      apply (@Permutation_cons_app _ l [x; y; z] t a); perm_lists
  | |- Permutation (?a :: ?l) (?x :: ?y :: ?z :: ?u :: ?a :: ?t) =>
      apply (@Permutation_cons_app _ l [x; y; z; u] t a); perm_lists
  end.

(** X7: dropping a photo dragged out of one position onto another
    position swaps the contents of the two positions and touches no
    other: the layout holds the same photos after the drop as before, the
    gallery is unchanged and the drag is over. *)
Theorem drop_between_positions_swaps
    (s : App.State) (origin position : App.Position) (dragged : App.Photo) :
  App.draggedPhoto s = Some dragged ->
  App.draggedFromPosition s = Some origin ->
  App.get (App.collageLayout s) origin = Some dragged ->
  let s' := App.handlePositionDrop position s in
  (forall q,
      App.get (App.collageLayout s') q
      = if App.positionEqb q position then Some dragged
        else if App.positionEqb q origin
             then App.get (App.collageLayout s) position
             else App.get (App.collageLayout s) q)
  /\ Permutation (App.getPhotosInLayout (App.collageLayout s'))
       (App.getPhotosInLayout (App.collageLayout s))
  /\ App.photos s' = App.photos s
  /\ App.draggedPhoto s' = None
  /\ App.draggedFromPosition s' = None.
Proof.
  destruct s as [photos [c1 c2 c3 c4 c5] d from hovered uploading].
  cbn [App.draggedPhoto App.draggedFromPosition App.collageLayout].
  intros -> -> Hat. unfold App.handlePositionDrop.
  cbn [App.draggedPhoto App.draggedFromPosition App.collageLayout App.photos].
  split; [|split; [|repeat split]].
  - intros q.
    destruct origin, position, q; cbn in Hat |- *; subst;
      repeat match goal with c : option App.Photo |- _ => destruct c end;
      reflexivity.
  - destruct origin, position; cbn in Hat; subst;
      repeat match goal with c : option App.Photo |- _ => destruct c end;
      cbn; perm_lists.
Qed.

(** X8: dropping a photo dragged from the gallery puts it at the target
    and changes no other position: a photo that stood at the target
    leaves the layout, and the layout holds one photo more only when the
    target was free.  With nothing dragged a drop changes nothing. *)
Theorem drop_from_gallery_replaces
    (s : App.State) (position : App.Position) :
  (App.draggedPhoto s = None -> App.handlePositionDrop position s = s)
  /\ (forall dragged,
        App.draggedPhoto s = Some dragged ->
        App.draggedFromPosition s = None ->
        let s' := App.handlePositionDrop position s in
        (forall q,
            App.get (App.collageLayout s') q
            = if App.positionEqb q position then Some dragged
              else App.get (App.collageLayout s) q)
        /\ placedCount (App.collageLayout s')
           = match App.get (App.collageLayout s) position with
             | Some _ => placedCount (App.collageLayout s)
             | None => S (placedCount (App.collageLayout s))
             end
        /\ App.photos s' = App.photos s).
Proof.
  destruct s as [photos [c1 c2 c3 c4 c5] d from hovered uploading].
  cbn [App.draggedPhoto App.draggedFromPosition App.collageLayout].
  split.
  - intros ->. reflexivity.
  - intros dragged -> ->. unfold App.handlePositionDrop.
    cbn [App.draggedPhoto App.draggedFromPosition App.collageLayout App.photos].
    split; [|split; [|reflexivity]].
    + intros q. unfold App.dropLayout. apply get_set.
    + destruct position, c1, c2, c3, c4, c5; reflexivity.
Qed.

Lemma holds_iff (id : jsstring) (cell : option App.Photo) :
  App.holds id cell = true
  <-> exists photo, cell = Some photo /\ App.publicId photo = id.
Proof.
  destruct cell as [photo|]; simpl.
  - rewrite stringEquals_eq. split.
    + intros H. now exists photo.
    + now intros [q [[= ->] H]].
  - split; [discriminate|]. now intros [q [H _]].
Qed.

(** X9: removing a photo takes every photo with its publicId out of the
    gallery and out of the layout, and nothing else: what is left, in the
    gallery and in the layout read in position order, is the old content
    filtered by publicId, and no position is shifted. *)
Theorem removePhoto_filters
    (photoToRemove : App.Photo) (s : App.State) :
  let s' := App.removePhoto photoToRemove s in
  App.photos s' = filter (keeps photoToRemove) (App.photos s)
  /\ App.getPhotosInLayout (App.collageLayout s')
     = filter (keeps photoToRemove) (App.getPhotosInLayout (App.collageLayout s))
  /\ (forall q,
        App.get (App.collageLayout s') q
        = match App.get (App.collageLayout s) q with
          | Some photo =>
              if keeps photoToRemove photo then Some photo else None
          | None => None
          end)
  /\ Forall (fun photo => App.publicId photo <> App.publicId photoToRemove)
       (App.photos s' ++ App.getPhotosInLayout (App.collageLayout s')).
Proof.
  destruct s as [photos [c1 c2 c3 c4 c5] d from hovered uploading].
  cbn [App.removePhoto App.photos App.collageLayout].
  assert (Hlayout :
    App.getPhotosInLayout
      (App.clearPhoto photoToRemove (App.Build_CollageLayout c1 c2 c3 c4 c5))
    = filter (keeps photoToRemove)
        (App.getPhotosInLayout (App.Build_CollageLayout c1 c2 c3 c4 c5))).
  { unfold App.clearPhoto, App.holds, keeps.
    cbn [App.position1 App.position2 App.position3 App.position4 App.position5].
    destruct c1 as [p1|], c2 as [p2|], c3 as [p3|], c4 as [p4|], c5 as [p5|];
      cbn [App.getPhotosInLayout App.pushIf App.position1 App.position2
           App.position3 App.position4 App.position5 app filter];
      repeat match goal with
             | |- context [App.stringEquals ?a ?b] =>
                 destruct (App.stringEquals a b)
             end;
      reflexivity. }
  split; [reflexivity|]. split; [exact Hlayout|]. split.
  - intros q. unfold App.clearPhoto, App.holds, keeps.
    cbn [App.position1 App.position2 App.position3 App.position4 App.position5].
    destruct c1 as [p1|], c2 as [p2|], c3 as [p3|], c4 as [p4|], c5 as [p5|];
      destruct q; cbn;
      repeat match goal with
             | |- context [App.stringEquals ?a ?b] =>
                 destruct (App.stringEquals a b)
             end;
      reflexivity.
  - rewrite Hlayout, <- filter_app. apply Forall_forall.
    intros photo Hin. apply filter_In in Hin. destruct Hin as [_ Hk].
    unfold keeps in Hk. apply negb_true_iff in Hk.
    intros E. apply stringEquals_eq in E. congruence.
Qed.

(** X10: [removeFromPosition] empties its position and no other and
    leaves the gallery alone; it undoes a drop from the gallery onto a
    free position. *)
Theorem removeFromPosition_undoes_drop
    (s : App.State) (position : App.Position) :
  let s' := App.removeFromPosition position s in
  (forall q,
      App.get (App.collageLayout s') q
      = if App.positionEqb q position then None
        else App.get (App.collageLayout s) q)
  /\ App.photos s' = App.photos s
  /\ (forall dragged,
        App.draggedPhoto s = Some dragged ->
        App.draggedFromPosition s = None ->
        App.get (App.collageLayout s) position = None ->
        App.collageLayout
          (App.removeFromPosition position (App.handlePositionDrop position s))
        = App.collageLayout s).
Proof.
  destruct s as [photos [c1 c2 c3 c4 c5] d from hovered uploading].
  cbn [App.removeFromPosition App.collageLayout App.photos
       App.draggedPhoto App.draggedFromPosition].
  split; [|split; [reflexivity|]].
  - intros q. apply get_set.
  - intros dragged -> -> Hfree. unfold App.handlePositionDrop.
    cbn [App.draggedPhoto App.draggedFromPosition App.collageLayout].
    destruct position; cbn in Hfree |- *; now subst.
Qed.

End DropAndRemove.


(** ** From the layout to the URL *)

Section LayoutToUrl.

Lemma full_layout (layout : App.CollageLayout) :
  List.length (App.getPhotosInLayout layout) = 5%nat ->
  exists p1 p2 p3 p4 p5,
    layout = App.Build_CollageLayout (Some p1) (Some p2) (Some p3)
               (Some p4) (Some p5).
Proof.
  destruct layout as [[p1|] [p2|] [p3|] [p4|] [p5|]]; cbn; try discriminate.
  intros _. now exists p1, p2, p3, p4, p5.
Qed.

(** X11: the URL the component shows is the builder's result on the
    photos of the layout read in position order.  It is a non-empty URL
    only when the cloud name is set and the five positions are filled, and
    then the photo at position k is the overlay in slot k; with the five
    positions filled, a cloud name and a well-formed family name it is a
    non-empty URL. *)
Theorem collageUrl_places_positions
    (w : World) (cloudName : jsstring) (s : App.State) (familyName : jsstring) :
  App.collageUrl w cloudName s familyName
  = returned w cloudName
      (map App.asBuilderPhoto (App.getPhotosInLayout (App.collageLayout s)))
      familyName
  /\ (forall url,
        App.collageUrl w cloudName s familyName = Normal url -> url <> [] ->
        exists p1 p2 p3 p4 p5 s1 s2 s3 s4 s5 text,
          App.collageLayout s
          = App.Build_CollageLayout (Some p1) (Some p2) (Some p3)
              (Some p4) (Some p5)
          /\ photoPositions = [s1; s2; s3; s4; s5]
          /\ cloudName <> []
          /\ url = join (js "/")
                     [baseUrl cloudName; baseTransform;
                      overlay s1 (App.asBuilderPhoto p1);
                      overlay s2 (App.asBuilderPhoto p2);
                      overlay s3 (App.asBuilderPhoto p3);
                      overlay s4 (App.asBuilderPhoto p4);
                      overlay s5 (App.asBuilderPhoto p5);
                      whiteRibbon; text; backgroundId])
  /\ (cloudName <> [] -> placedCount (App.collageLayout s) = 5%nat ->
      isWellFormed familyName = true ->
      exists url,
        App.collageUrl w cloudName s familyName = Normal url /\ url <> []).
Proof.
  assert (Hsame :
    App.collageUrl w cloudName s familyName
    = returned w cloudName
        (map App.asBuilderPhoto (App.getPhotosInLayout (App.collageLayout s)))
        familyName).
  { unfold App.collageUrl.
    destruct cloudName as [|c cs] eqn:Ec.
    - simpl. symmetry. apply returned_guard. now left.
    - cbn [falsy negb andb].
      destruct (Nat.eqb_spec
                  (List.length (App.getPhotosInLayout (App.collageLayout s))) 5)
        as [Hfive|Hnot]; [reflexivity|].
      symmetry. apply returned_guard. right. now rewrite length_map. }
  split; [exact Hsame|]. split.
  - intros url Hurl Hne. rewrite Hsame in Hurl.
    destruct (list_eq_dec N.eq_dec cloudName []) as [Hc|Hc].
    { rewrite returned_guard in Hurl by now left. congruence. }
    destruct (Nat.eq_dec
                (List.length (App.getPhotosInLayout (App.collageLayout s))) 5)
      as [Hfive|Hnot].
    2:{ rewrite returned_guard in Hurl by (right; now rewrite length_map).
        congruence. }
    destruct (full_layout _ Hfive) as [p1 [p2 [p3 [p4 [p5 Hl]]]]].
    rewrite Hl in Hurl. cbn [App.getPhotosInLayout App.pushIf App.position1
      App.position2 App.position3 App.position4 App.position5 app map] in Hurl.
    destruct (returned_segments w cloudName
                [App.asBuilderPhoto p1; App.asBuilderPhoto p2;
                 App.asBuilderPhoto p3; App.asBuilderPhoto p4;
                 App.asBuilderPhoto p5] familyName url Hc eq_refl Hurl)
      as [text [_ ->]].
    exists p1, p2, p3, p4, p5. do 5 eexists. exists text.
    split; [exact Hl|]. split; [reflexivity|]. split; [exact Hc|]. reflexivity.
  - intros Hc Hfive Hw. rewrite Hsame.
    assert (Hlen : List.length
              (map App.asBuilderPhoto
                 (App.getPhotosInLayout (App.collageLayout s))) = 5%nat)
      by now rewrite length_map.
    rewrite (returned_valid w _ _ _ Hc Hlen).
    destruct (textOverlay_returns familyName (clockYear w) Hw) as [text ->].
    eexists. split; [reflexivity|]. apply assembled_nonempty.
Qed.

End LayoutToUrl.

(** ** Uploading files *)

Section Uploads.



(** The photos after a run of uploads on any state: the new photos are
    appended as long as the gallery has room up to five. *)
Lemma uploads_fill (results : list App.UploadInfo) :
  forall s,
    App.photos
      (fold_left (fun state result => App.handleUpload result state) results s)
    = App.photos s
      ++ firstn (5 - List.length (App.photos s)) (map photoOf results).
Proof.
  induction results as [|r results IH]; intros s.
  - simpl. now rewrite firstn_nil, app_nil_r.
  - cbn [fold_left map]. rewrite IH.
    cbn [App.handleUpload App.photos]. unfold App.addPhoto.
    destruct (Nat.leb_spec 5 (List.length (App.photos s))) as [Hfull|Hroom].
    + replace (5 - List.length (App.photos s))%nat with 0%nat by lia.
      reflexivity.
    + rewrite length_app. cbn [List.length].
      replace (5 - List.length (App.photos s))%nat
        with (S (5 - (List.length (App.photos s) + 1)))%nat by lia.
      cbn [firstn]. fold (photoOf r). now rewrite <- app_assoc.
Qed.

Lemma uploads_keep_limit (results : list App.UploadInfo) (s : App.State) :
  (List.length (App.photos s) <= 5)%nat ->
  (List.length
     (App.photos
        (fold_left (fun state result => App.handleUpload result state)
           results s)) <= 5)%nat.
Proof.
  intros Hs. rewrite uploads_fill, length_app, length_firstn. lia.
Qed.

Lemma begin_keeps (cloudName uploadPreset : jsstring) (files : list App.File)
    (s : App.State) :
  App.photos (App.stateNow (App.handleFilesBegin cloudName uploadPreset files s))
  = App.photos s
  /\ App.collageLayout
       (App.stateNow (App.handleFilesBegin cloudName uploadPreset files s))
     = App.collageLayout s.
Proof.
  unfold App.handleFilesBegin.
  destruct (falsy cloudName || falsy uploadPreset); [now split|].
  destruct (Nat.eqb (List.length (App.imageFiles files)) 0); [now split|].
  destruct (5 - Z.of_nat (List.length (App.photos s)) <=? 0); now split.
Qed.



End Uploads.


(** ** The gallery never holds more than five photos *)

Section GalleryLimit.

Lemma step_keeps_limit (s : App.State) (e : Event) :
  (List.length (App.photos s) <= 5)%nat ->
  (List.length (App.photos (step s e)) <= 5)%nat.
Proof.
  intros Hs. destruct e as [info|cn preset files|[results|]|photo from|
                           |position|position|photo]; cbn [step].
  - cbn [App.handleUpload App.photos]. unfold App.addPhoto.
    destruct (Nat.leb_spec 5 (List.length (App.photos s))); [exact Hs|].
    rewrite length_app. simpl. lia.
  - now rewrite (proj1 (begin_keeps cn preset files s)).
  - cbn [App.handleFilesSettle fst App.setIsUploading App.photos].
    now apply uploads_keep_limit.
  - exact Hs.
  - exact Hs.
  - exact Hs.
  - unfold App.handlePositionDrop. now destruct (App.draggedPhoto s).
  - exact Hs.
  - cbn [App.removePhoto App.photos].
    etransitivity; [apply filter_length_le|exact Hs].
Qed.

(** X13: however uploads through the widget, file drops, drags, drops on
    positions and removals follow one another from the first render, the
    gallery holds at most five photos and, since each position holds at
    most one, so does the layout. *)
Theorem gallery_never_exceeds_five (events : list Event) :
  (List.length (App.photos (run events)) <= 5)%nat
  /\ (placedCount (App.collageLayout (run events)) <= 5)%nat.
Proof.
  split.
  - unfold run.
    assert (H : forall s, (List.length (App.photos s) <= 5)%nat ->
                (List.length (App.photos (fold_left step events s)) <= 5)%nat).
    { induction events as [|e events IH]; intros s Hs; [exact Hs|].
      simpl. apply IH. now apply step_keeps_limit. }
    apply H. simpl. lia.
  - unfold placedCount.
    destruct (App.collageLayout (run events)) as [[?|] [?|] [?|] [?|] [?|]];
      cbn; lia.
Qed.

End GalleryLimit.

(** ** Waiting for the widget script *)

Section ScriptPoll.

Variable ready : nat -> bool.
Variable maxAttempts : nat.

Lemma checkCloudinary_settles (fuel : nat) :
  forall attempts,
    (attempts <= maxAttempts)%nat ->
    (maxAttempts - attempts < fuel)%nat ->
    (forall j, (j < attempts)%nat -> ready j = false) ->
    match checkCloudinary ready maxAttempts fuel attempts with
    | Some (Resolved k) =>
        (k <= maxAttempts)%nat /\ ready k = true
        /\ forall j, (j < k)%nat -> ready j = false
    | Some (Rejected k) =>
        k = maxAttempts /\ forall j, (j <= maxAttempts)%nat -> ready j = false
    | None => False
    end.
Proof.
  induction fuel as [|fuel IH]; intros attempts Hle Hfuel Hbefore; [lia|].
  simpl. destruct (ready attempts) eqn:Hr.
  - auto.
  - destruct (Nat.ltb_spec attempts maxAttempts) as [Hlt|Hge].
    + apply IH; [lia|lia|].
      intros j Hj. destruct (Nat.eq_dec j attempts) as [->|Hne]; [exact Hr|].
      apply Hbefore. lia.
    + split; [lia|]. intros j Hj.
      destruct (Nat.eq_dec j attempts) as [->|Hne]; [exact Hr|].
      apply Hbefore. lia.
Qed.

(** X14: [waitForCloudinary] looks at most [maxAttempts + 1] times.  It
    resolves at the first look that finds the script, if there is one
    among these looks, and rejects after [maxAttempts] retries exactly
    when none of the [maxAttempts + 1] looks finds it. *)
Theorem waitForCloudinary_settles (fuel : nat) :
  (maxAttempts < fuel)%nat ->
  match waitForCloudinary ready maxAttempts fuel with
  | Some (Resolved k) =>
      (k <= maxAttempts)%nat /\ ready k = true
      /\ forall j, (j < k)%nat -> ready j = false
  | Some (Rejected k) =>
      k = maxAttempts /\ forall j, (j <= maxAttempts)%nat -> ready j = false
  | None => False
  end.
Proof.
  intros Hfuel. unfold waitForCloudinary.
  apply checkCloudinary_settles; [lia|lia|]. intros j Hj. lia.
Qed.

End ScriptPoll.

Lemma waitForCloudinary_settles_witness :
  match waitForCloudinary (fun k => Nat.eqb k 3) 50 51 with
  | Some (Resolved k) =>
      (k <= 50)%nat /\ Nat.eqb k 3 = true
      /\ forall j, (j < k)%nat -> Nat.eqb j 3 = false
  | Some (Rejected k) =>
      k = 50%nat /\ forall j, (j <= 50)%nat -> Nat.eqb j 3 = false
  | None => False
  end.
Proof.
  apply (waitForCloudinary_settles (fun k => Nat.eqb k 3) 50 51). lia.
Defined.


Lemma drop_between_positions_swaps_witness :
  let a := {| App.publicId := js "a"; App.url := js "https://a" |} in
  let b := {| App.publicId := js "b"; App.url := js "https://b" |} in
  let s := {| App.photos := [a; b];
              App.collageLayout :=
                App.Build_CollageLayout (Some a) (Some b) None None None;
              App.draggedPhoto := Some a;
              App.draggedFromPosition := Some App.Position1;
              App.hoveredPosition := None;
              App.isUploading := false |} in
  App.collageLayout (App.handlePositionDrop App.Position2 s)
  = App.Build_CollageLayout (Some b) (Some a) None None None
  /\ Permutation
       (App.getPhotosInLayout
          (App.collageLayout (App.handlePositionDrop App.Position2 s)))
       (App.getPhotosInLayout (App.collageLayout s)).
Proof.
  intros a b s. split; [reflexivity|].
  exact (proj1 (proj2 (drop_between_positions_swaps s App.Position1
                         App.Position2 a eq_refl eq_refl eq_refl))).
Defined.

(** ** The photo order can be read back from the URL *)

Section ReadBack.

Lemma overlays_split (p1 p2 p3 p4 p5 : Photo) :
  flat_map (split solidus)
    (map pairOverlay (combine photoPositions [p1; p2; p3; p4; p5]))
  = flat_map
      (fun sp => [js "l_" ++ replaceSlashes (publicId (snd sp));
                  cropComponent (fst sp);
                  js "r_25,bo_8px_solid_rgb:FFD700";
                  applyComponent (fst sp)])
      (combine photoPositions [p1; p2; p3; p4; p5]).
Proof.
  assert (H : forall zs : list (Position * Photo),
            (forall sp, In sp zs -> In (fst sp) photoPositions) ->
            flat_map (split solidus) (map pairOverlay zs)
            = flat_map
                (fun sp => [js "l_" ++ replaceSlashes (publicId (snd sp));
                            cropComponent (fst sp);
                            js "r_25,bo_8px_solid_rgb:FFD700";
                            applyComponent (fst sp)]) zs).
  { induction zs as [|[position photo] zs IH]; intros Hin; [reflexivity|].
    cbn [map flat_map]. unfold pairOverlay at 1. cbn [fst snd].
    rewrite (proj1 (overlay_components position photo
                      (Hin (position, photo) (or_introl eq_refl)))).
    rewrite IH; [reflexivity|]. intros sp Hsp. apply Hin. now right. }
  apply H. intros [position photo] Hsp. now apply in_combine_l in Hsp.
Qed.

(** X15: with a non-empty cloud name, two lists of five photos that give
    the same URL for the same family name in the same world carry the same
    overlay ids in the same order: the URL keeps the arrangement of the
    photos, up to the replacement of [/] by [:] in their publicIds. *)
Theorem url_keeps_photo_order
    (w : World) (cloudName : jsstring) (photos photos' : list Photo)
    (familyName url : jsstring) :
  cloudName <> [] ->
  List.length photos = 5%nat -> List.length photos' = 5%nat ->
  returned w cloudName photos familyName = Normal url ->
  returned w cloudName photos' familyName = Normal url ->
  map (fun photo => replaceSlashes (publicId photo)) photos
  = map (fun photo => replaceSlashes (publicId photo)) photos'.
Proof.
  intros Hc Hlen Hlen' H1 H2.
  destruct (returned_segments _ _ _ _ _ Hc Hlen H1) as [text [Ht E1]].
  destruct (returned_segments _ _ _ _ _ Hc Hlen' H2) as [text' [Ht' E2]].
  rewrite Ht in Ht'. apply Normal_eq in Ht'. subst text'.
  rewrite E1 in E2. unfold assembled in E2.
  do 2 apply app_inv_head in E2.
  apply (f_equal (split solidus)) in E2.
  change (js "/") with [solidus] in E2.
  rewrite !split_join in E2 by (unfold segments; simpl; discriminate).
  unfold segments in E2. rewrite !flat_map_app in E2.
  apply app_inv_head in E2. apply app_inv_tail in E2.
  destruct photos as [|p1 [|p2 [|p3 [|p4 [|p5 [|p6 rest]]]]]]; try discriminate.
  destruct photos' as [|q1 [|q2 [|q3 [|q4 [|q5 [|q6 rest']]]]]]; try discriminate.
  rewrite !overlays_split in E2.
  cbn [combine photoPositions Layout.photoPositions flat_map app fst snd] in E2.
  injection E2 as E1' E2' E3' E4' E5'.
  cbn [map]. congruence.
Qed.

Lemma url_keeps_photo_order_witness :
  map (fun photo => replaceSlashes (publicId photo)) samplePhotos
  = map (fun photo => replaceSlashes (publicId photo))
      (map (fun s => {| publicId := js s |}) ["a:b"; "c"; "d:e/f"; "g"; "h"]%string).
Proof.
  eapply (url_keeps_photo_order sampleWorld (js "demo") samplePhotos
            (map (fun s => {| publicId := js s |})
               ["a:b"; "c"; "d:e/f"; "g"; "h"]%string) (js "Smith")).
  - discriminate.
  - reflexivity.
  - reflexivity.
  - vm_compute. reflexivity.
  - vm_compute. reflexivity.
Defined.

End ReadBack.
